(** * The URL-prefixing HTML transformer (html-transformer.js)

    A shallow embedding of the streaming transformer: the byte classifier,
    the attribute rewrite table, the four rewrite strategies, the write
    buffer, the parser state machine [SM] and the [HTMLTransformer] stream
    wrapper, followed by the properties established about them.

    Bytes and UTF-16 code units are integers ([Z]).  A JS string is the list
    of its code units; a byte array is the list of its bytes. *)

From Stdlib Require Import ZArith List Lia Bool String Ascii.
From Equations Require Import Equations.
From stdpp Require Import base decidable numbers list.
Import ListNotations.
Local Open Scope Z_scope.

(** ** Character codes *)

Module Chars.
Definition Tab   : Z := 0x09.
Definition LF    : Z := 0x0A.
Definition CR    : Z := 0x0D.
Definition Space : Z := 0x20.
Definition Bang  : Z := 0x21.   (* '!' *)
Definition DQuote : Z := 0x22.  (* the double quote *)
Definition SQuote : Z := 0x27.  (* the single quote *)
Definition Dash  : Z := 0x2D.   (* '-' *)
Definition Slash : Z := 0x2F.   (* '/' *)
Definition Lt    : Z := 0x3C.   (* '<' *)
Definition Equals : Z := 0x3D.  (* '=' *)
Definition Gt    : Z := 0x3E.   (* '>' *)
Definition A     : Z := 0x41.
Definition Z_    : Z := 0x5A.   (* 'Z' *)
Definition Underscore : Z := 0x5F.
Definition a     : Z := 0x61.
Definition z     : Z := 0x7A.
End Chars.

(** ** The parts of the JavaScript runtime the code relies on *)

(** A JS string: its UTF-16 code units. *)
Definition JSString := list Z.

(** A string literal of the source, as a JS string. *)
Fixpoint js (s : string) : JSString :=
  match s with
  | EmptyString => []
  | String c r => Z.of_nat (nat_of_ascii c) :: js r
  end.

(** [a == b] on two strings. *)
Definition str_eqb (a b : JSString) : bool := bool_decide (a = b).

(** *** Buffer.prototype.toString('utf8')

    The decoder of the encoding standard: a lead byte fixes how many
    continuation bytes are needed and the range allowed for the next one;
    every ill-formed sequence becomes one U+FFFD and the offending byte is
    looked at again.  [(b & 0x1F)], [(b & 0x0F)], [(b & 0x07)] and
    [(cp << 6) | (b & 0x3F)] are written as the subtractions and the
    multiplication they amount to on the ranges where they are used. *)

Record Utf8State := {
  u_cp : Z;          (* code point accumulated so far *)
  u_needed : nat;    (* continuation bytes still expected *)
  u_lower : Z;       (* range allowed for the next continuation byte *)
  u_upper : Z
}.

Definition utf8_idle : Utf8State :=
  {| u_cp := 0; u_needed := 0; u_lower := 0x80; u_upper := 0xBF |}.

(** The units of one code point: itself, or a surrogate pair. *)
Definition units_of_code_point (cp : Z) : list Z :=
  if cp <? 0x10000 then [cp]
  else [0xD800 + (cp - 0x10000) / 0x400; 0xDC00 + (cp - 0x10000) mod 0x400].

(** A byte met while no sequence is open: what is output and the new state. *)
Definition utf8_start (b : Z) : list Z * Utf8State :=
  if b <=? 0x7F then ([b], utf8_idle)
  else if (0xC2 <=? b) && (b <=? 0xDF) then
    ([], {| u_cp := b - 0xC0; u_needed := 1; u_lower := 0x80; u_upper := 0xBF |})
  else if (0xE0 <=? b) && (b <=? 0xEF) then
    ([], {| u_cp := b - 0xE0; u_needed := 2;
            u_lower := if b =? 0xE0 then 0xA0 else 0x80;
            u_upper := if b =? 0xED then 0x9F else 0xBF |})
  else if (0xF0 <=? b) && (b <=? 0xF4) then
    ([], {| u_cp := b - 0xF0; u_needed := 3;
            u_lower := if b =? 0xF0 then 0x90 else 0x80;
            u_upper := if b =? 0xF4 then 0x8F else 0xBF |})
  else ([0xFFFD], utf8_idle).

Fixpoint utf8_decode_from (st : Utf8State) (bytes : list Z) : list Z :=
  match bytes with
  | [] => match u_needed st with O => [] | S _ => [0xFFFD] end
  | b :: rest =>
    match u_needed st with
    | O => let '(out, st') := utf8_start b in out ++ utf8_decode_from st' rest
    | S n =>
      if (u_lower st <=? b) && (b <=? u_upper st) then
        let cp := u_cp st * 64 + (b - 0x80) in
        match n with
        | O => units_of_code_point cp ++ utf8_decode_from utf8_idle rest
        | S _ => utf8_decode_from
                   {| u_cp := cp; u_needed := n; u_lower := 0x80; u_upper := 0xBF |}
                   rest
        end
      else
        let '(out, st') := utf8_start b in
        0xFFFD :: out ++ utf8_decode_from st' rest
    end
  end.

Definition utf8_decode (bytes : list Z) : JSString :=
  utf8_decode_from utf8_idle bytes.

(** *** String.prototype.toLowerCase

    Exact on the units below 0x80.  Of the units from 0x80 on, only U+0130
    and U+212A have a lower-case form that contains a unit below 0x80; they
    are mapped as the Unicode tables say.  Every other unit is left as it
    is: the real function maps some of them to other units from 0x80 on,
    one for one, which no comparison with an ASCII literal can observe, and
    the code only ever compares the result with ASCII literals. *)
Definition lower_unit (u : Z) : list Z :=
  if (Chars.A <=? u) && (u <=? Chars.Z_) then [u + 32]
  else if u =? 0x130 then [0x69; 0x307]
  else if u =? 0x212A then [0x6B]
  else [u].

Definition toLowerCase (s : JSString) : JSString := flat_map lower_unit s.

(** *** White space of the language (String.prototype.trim and [\s]) *)
Definition isJSWhiteSpace (u : Z) : bool :=
  ((0x09 <=? u) && (u <=? 0x0D)) || (u =? 0x20) || (u =? 0xA0)
  || (u =? 0x1680) || ((0x2000 <=? u) && (u <=? 0x200A))
  || (u =? 0x2028) || (u =? 0x2029) || (u =? 0x202F) || (u =? 0x205F)
  || (u =? 0x3000) || (u =? 0xFEFF).

Fixpoint trimStart (s : JSString) : JSString :=
  match s with
  | [] => []
  | u :: r => if isJSWhiteSpace u then trimStart r else s
  end.

Definition trimEnd (s : JSString) : JSString := rev (trimStart (rev s)).

Definition trim (s : JSString) : JSString := trimEnd (trimStart s).

(** *** String.prototype.split with a separator that matches one unit

    The pieces between the occurrences of [sep]; a string without any
    occurrence, the empty string included, gives one piece. *)
Fixpoint split (sep : Z) (s : JSString) : list JSString :=
  match s with
  | [] => [[]]
  | u :: r =>
    if u =? sep then [] :: split sep r
    else match split sep r with
         | [] => [[u]]
         | p :: ps => (u :: p) :: ps
         end
  end.

(** *** Array.prototype.join *)
Fixpoint join (sep : JSString) (parts : list JSString) : JSString :=
  match parts with
  | [] => []
  | [p] => p
  | p :: ps => p ++ sep ++ join sep ps
  end.

(** [s.charCodeAt(0)]: NaN, here [None], on the empty string. *)
Definition charCodeAt0 (s : JSString) : option Z := head s.

(** *** Regular expressions

    The fragment of the pattern language the code uses, with the matcher of
    the language definition: a backtracking matcher in continuation style
    over a cursor made of the unit before the current position and the
    units from it on.  Repetition is needed of one-unit classes only. *)

Inductive regex :=
  | Chr (c : Z)                    (* one given unit *)
  | Class (p : Z -> bool)          (* one unit of a class *)
  | StarClass (p : Z -> bool)      (* greedy [*] of a class *)
  | WordBoundary                   (* [\b] *)
  | Seq (r1 r2 : regex)
  | Group (n : nat) (r : regex).   (* the n-th capturing group *)

Definition Captures := list (nat * JSString).

Fixpoint capture (n : nat) (caps : Captures) : option JSString :=
  match caps with
  | [] => None
  | (i, s) :: r => if Nat.eqb i n then Some s else capture n r
  end.

Definition MatchResult : Type := list Z * Captures.
Definition Continuation := option Z -> list Z -> Captures -> option MatchResult.

Definition isWordChar (u : Z) : bool :=
  ((0x61 <=? u) && (u <=? 0x7A)) || ((0x41 <=? u) && (u <=? 0x5A))
  || ((0x30 <=? u) && (u <=? 0x39)) || (u =? 0x5F).

Definition isWordCharAt (u : option Z) : bool :=
  match u with Some c => isWordChar c | None => false end.

Fixpoint star_class (p : Z -> bool) (prev : option Z) (rest : list Z)
    (caps : Captures) (k : Continuation) : option MatchResult :=
  match rest with
  | c :: t =>
    if p c then
      match star_class p (Some c) t caps k with
      | Some r => Some r
      | None => k prev rest caps
      end
    else k prev rest caps
  | [] => k prev rest caps
  end.

Fixpoint rmatch (r : regex) (prev : option Z) (rest : list Z)
    (caps : Captures) (k : Continuation) : option MatchResult :=
  match r with
  | Chr c =>
    match rest with
    | u :: t => if u =? c then k (Some u) t caps else None
    | [] => None
    end
  | Class p =>
    match rest with
    | u :: t => if p u then k (Some u) t caps else None
    | [] => None
    end
  | StarClass p => star_class p prev rest caps k
  | WordBoundary =>
    if xorb (isWordCharAt prev) (isWordCharAt (head rest))
    then k prev rest caps else None
  | Seq r1 r2 =>
    rmatch r1 prev rest caps (fun prev' rest' caps' => rmatch r2 prev' rest' caps' k)
  | Group n r1 =>
    rmatch r1 prev rest caps (fun prev' rest' caps' =>
      k prev' rest' ((n, take (length rest - length rest') rest) :: caps'))
  end.

(** One attempt at the current position: the units left after the match
    and the captures. *)
Definition regex_exec_at (r : regex) (prev : option Z) (rest : list Z)
    : option MatchResult :=
  rmatch r prev rest [] (fun _ rest' caps => Some (rest', caps)).

(** *** GetSubstitution: expansion of a replacement template

    [m] is the number of capturing groups; there are no named groups. *)
Section GetSubstitution.
Variables (m : Z) (caps : Captures) (matched before after : JSString).

Definition isDigit (u : Z) : bool := (0x30 <=? u) && (u <=? 0x39).

Definition capture_text (i : Z) : JSString :=
  match capture (Z.to_nat i) caps with Some s => s | None => [] end.

(** [$d]: the d-th capture, or the two units themselves. *)
Definition one_digit_ref (d : Z) : JSString :=
  if (1 <=? d - 48) && (d - 48 <=? m) then capture_text (d - 48) else [36; d].

Fixpoint GetSubstitution (template : JSString) : JSString :=
  match template with
  | [] => []
  | c :: t =>
    if c =? 36 then
      match t with
      | [] => [c]
      | d :: t' =>
        if d =? 36 then 36 :: GetSubstitution t'
        else if d =? 38 then matched ++ GetSubstitution t'
        else if d =? 96 then before ++ GetSubstitution t'
        else if d =? 39 then after ++ GetSubstitution t'
        else if isDigit d then
          match t' with
          | d2 :: t'' =>
            if isDigit d2 then
              let index := 10 * (d - 48) + (d2 - 48) in
              if index <=? m then
                (if 1 <=? index then capture_text index else [36; d; d2])
                  ++ GetSubstitution t''
              else one_digit_ref d ++ GetSubstitution t'
            else one_digit_ref d ++ GetSubstitution t'
          | [] => one_digit_ref d
          end
        else c :: GetSubstitution t
      end
    else c :: GetSubstitution t
  end.
End GetSubstitution.

(** *** String.prototype.replace with a global pattern and a template

    The pattern is tried at every position from left to right; after a
    match the search resumes where the match ended ([skip] counts the units
    of the match still to be passed over), so matches do not overlap. *)
Section Replace.
Variables (r : regex) (m : Z) (template : JSString).

Definition substitute (consumed : list Z) (s rest' : list Z) (caps : Captures)
    : JSString :=
  GetSubstitution m caps (take (length s - length rest') s) consumed rest' template.

Fixpoint replace_from (consumed : list Z) (prev : option Z) (s : list Z)
    (skip : nat) : JSString :=
  match s with
  | [] =>
    match skip with
    | O => match regex_exec_at r prev [] with
           | Some (rest', caps) => substitute consumed [] rest' caps
           | None => []
           end
    | S _ => []
    end
  | c :: t =>
    match skip with
    | S k => replace_from (consumed ++ [c]) (Some c) t k
    | O =>
      match regex_exec_at r prev s with
      | Some (rest', caps) =>
        substitute consumed s rest' caps ++
        match (length s - length rest')%nat with
        | O => c :: replace_from (consumed ++ [c]) (Some c) t 0
        | S k => replace_from (consumed ++ [c]) (Some c) t k
        end
      | None => c :: replace_from (consumed ++ [c]) (Some c) t 0
      end
    end
  end.

Definition replace (s : JSString) : JSString := replace_from [] None s 0.
End Replace.

(** *** Property access on plain objects

    [o[name]] on an object written as a literal finds the object's own
    properties and, failing that, the members of [Object.prototype], which
    every such object inherits.  [RewriteTags] and the attribute tables in
    it are such objects (freezing does not change the prototype). *)

Inductive ProtoMember :=
  | P_constructor | P_hasOwnProperty | P_isPrototypeOf
  | P_propertyIsEnumerable | P_toLocaleString | P_toString | P_valueOf
  | P_proto                          (* the accessor [__proto__] *)
  | P_defineGetter | P_defineSetter | P_lookupGetter | P_lookupSetter.

Definition ObjectPrototype_members : list (string * ProtoMember) :=
  [ ("constructor", P_constructor);
    ("hasOwnProperty", P_hasOwnProperty);
    ("isPrototypeOf", P_isPrototypeOf);
    ("propertyIsEnumerable", P_propertyIsEnumerable);
    ("toLocaleString", P_toLocaleString);
    ("toString", P_toString);
    ("valueOf", P_valueOf);
    ("__proto__", P_proto);
    ("__defineGetter__", P_defineGetter);
    ("__defineSetter__", P_defineSetter);
    ("__lookupGetter__", P_lookupGetter);
    ("__lookupSetter__", P_lookupSetter) ]%string.

(** Own-property lookup in a table keyed by literals. *)
Fixpoint own_property {V : Type} (name : JSString) (o : list (string * V))
    : option V :=
  match o with
  | [] => None
  | (k, v) :: r => if str_eqb (js k) name then Some v else own_property name r
  end.

Definition ObjectPrototype_member (name : JSString) : option ProtoMember :=
  own_property name ObjectPrototype_members.

(** ** Byte classifier *)

(** Test if a character is a valid tag or attribute name character. *)
Definition isNameChar (ch : Z) : bool :=
  ((Chars.A <=? ch) && (ch <=? Chars.Z_))
  || ((Chars.a <=? ch) && (ch <=? Chars.z))
  || (ch =? Chars.Dash)
  || (ch =? Chars.Underscore).

(** Test if a character is a valid tag name character. *)
Definition isTagChar (ch : Z) : bool :=
  (ch =? Chars.Bang) || isNameChar ch.

(** Test if a character is a whitespace character. *)
Definition isWhitespace (ch : Z) : bool :=
  (ch =? Chars.Space) || (ch =? Chars.Tab) || (ch =? Chars.LF) || (ch =? Chars.CR).

(** Test if a character is a non-whitespace character. *)
Definition isNonWhitespace (ch : Z) : bool := negb (isWhitespace ch).

(** Convert an array of characters to a JS string: [Buffer.from] keeps the
    low eight bits of every element, [toString] decodes UTF-8. *)
Definition str (arr : list Z) : JSString :=
  utf8_decode (map (fun b => Z.land b 255) arr).

(** ** WriteBuffer *)

Record WriteBuffer := {
  _buffer : list Z;          (* the fixed-size byte region *)
  _offset : nat;
  _outs : list (list Z)      (* the chunks handed to [_outs.push], in order *)
}.

(** [Buffer.alloc]: zero-filled. *)
Definition Buffer_alloc (size : nat) : list Z := repeat 0 size.

Definition WriteBuffer_new (size : nat) : WriteBuffer :=
  {| _buffer := Buffer_alloc size; _offset := 0; _outs := [] |}.

Definition flush (wb : WriteBuffer) : WriteBuffer :=
  {| _buffer := Buffer_alloc (length (_buffer wb));
     _offset := 0;
     _outs := if (0 <? _offset wb)%nat
              then _outs wb ++ [take (_offset wb) (_buffer wb)]
              else _outs wb |}.

(** A store into a byte buffer keeps the low eight bits, and is ignored out
    of range. *)
Definition writeChar (ch : Z) (wb : WriteBuffer) : WriteBuffer :=
  let wb := if (length (_buffer wb) <=? _offset wb)%nat then flush wb else wb in
  {| _buffer := <[_offset wb := Z.land ch 255]> (_buffer wb);
     _offset := S (_offset wb);
     _outs := _outs wb |}.

(** What [writeChunk] is given: a string or an array of bytes. *)
Inductive Chunk :=
  | CString (s : JSString)
  | CArray (a : list Z).

Definition writeChunk (chunk : Chunk) (wb : WriteBuffer) : WriteBuffer :=
  match chunk with
  | CString s => fold_left (fun wb u => writeChar u wb) s wb
  | CArray a => fold_left (fun wb b => writeChar b wb) a wb
  end.

(** Everything written so far: the chunks pushed and the pending bytes. *)
Definition written (wb : WriteBuffer) : list Z :=
  concat (_outs wb) ++ take (_offset wb) (_buffer wb).

(** ** Outcomes of running a piece of the program *)

Inductive State :=
  | find_doctype | read_doctype | writethrough | writethrough_to_end
  | read_tag_name | find_attr_name_start | read_attr_name | find_attr_equals
  | find_attr_value_start | find_attr_value_end_quote
  | find_attr_value_end_no_quote | find_tag_end | find_script_end
  | find_comment_end.

Inductive Exception :=
  | TypeError
  | SyntaxError
  | BadParserStateTransition (prev : State).

Inductive Outcome (A : Type) :=
  | Returns (a : A)
  | Throws (e : Exception).
Arguments Returns {A} a.
Arguments Throws {A} e.

#[global] Instance Outcome_ret : MRet Outcome := fun A a => Returns a.

#[global] Instance Outcome_bind : MBind Outcome := fun A B f o =>
  match o with
  | Returns a => f a
  | Throws e => Throws e
  end.

(** ** Values held by the parse context *)

(** The four rewrite functions of the source, as table entries. *)
Inductive Rewrite :=
  | F_writeValue | F_prefixValue | F_prefixSrcSetValues | F_prefixCSSURLValues.

(** The function properties of the [Object] constructor, as ECMAScript
    2024 lists them. *)
Inductive ObjectStatic :=
  | O_assign | O_create | O_defineProperties | O_defineProperty | O_entries
  | O_freeze | O_fromEntries | O_getOwnPropertyDescriptor
  | O_getOwnPropertyDescriptors | O_getOwnPropertyNames
  | O_getOwnPropertySymbols | O_getPrototypeOf | O_groupBy | O_hasOwn | O_is
  | O_isExtensible | O_isFrozen | O_isSealed | O_keys | O_preventExtensions
  | O_seal | O_setPrototypeOf | O_values.

(** The function members of Function.prototype that have a string name;
    its [constructor] is [Function]. *)
Inductive FunctionMember :=
  | Fn_apply | Fn_bind | Fn_call | Fn_constructor | Fn_toString.

(** What [vars.attrs[attrName]] can find when it is not undefined, null or
    zero. *)
Inductive Value :=
  | VRewrite (f : Rewrite)        (* a function of the source *)
  | VBuiltin (m : ProtoMember)    (* a function member of Object.prototype;
                                     its [constructor] is [Object] *)
  | VObjectPrototype              (* the object Object.prototype *)
  | VStatic (s : ObjectStatic)    (* a function property of [Object] *)
  | VFunctionMember (f : FunctionMember)
  | VFunctionPrototype            (* the function Function.prototype *)
  | VPrimitive                    (* a non-empty string or a non-zero number *)
  | VRestricted.                  (* the accessors [arguments] and [caller] of
                                     Function.prototype, whose getter throws *)

(** What [RewriteTags[tagName]] can evaluate to when it is not undefined. *)
Inductive Attrs :=
  | ATable (t : list (string * Rewrite))   (* a table of the source *)
  | AObjectPrototype                       (* inherited [__proto__] *)
  | ABuiltinFunction (m : ProtoMember).    (* inherited function member *)

(** [vars.tagName]: an array while the name is read, then a string. *)
Inductive TagName :=
  | TagArray (a : list Z)
  | TagString (s : JSString).

(** [vars.attrValue]: never set, [false], or an array. *)
Inductive AttrValue :=
  | AV_undefined
  | AV_false
  | AV_array (a : list Z).

Record Vars := {
  prefix : JSString;
  doctype : option (list Z);
  tagName : option TagName;
  attrs : option Attrs;
  attrName : option (list Z);
  writeAttr : option Value;
  endQuote : option Z;
  attrValue : AttrValue;
  currentTag : option (list Z);
  cbuff : option (option Z * option Z * option Z)
}.

Definition set_doctype (v : option (list Z)) (x : Vars) : Vars :=
  {| prefix := prefix x; doctype := v; tagName := tagName x; attrs := attrs x;
     attrName := attrName x; writeAttr := writeAttr x; endQuote := endQuote x;
     attrValue := attrValue x; currentTag := currentTag x; cbuff := cbuff x |}.

Definition set_tagName (v : option TagName) (x : Vars) : Vars :=
  {| prefix := prefix x; doctype := doctype x; tagName := v; attrs := attrs x;
     attrName := attrName x; writeAttr := writeAttr x; endQuote := endQuote x;
     attrValue := attrValue x; currentTag := currentTag x; cbuff := cbuff x |}.

Definition set_attrs (v : option Attrs) (x : Vars) : Vars :=
  {| prefix := prefix x; doctype := doctype x; tagName := tagName x; attrs := v;
     attrName := attrName x; writeAttr := writeAttr x; endQuote := endQuote x;
     attrValue := attrValue x; currentTag := currentTag x; cbuff := cbuff x |}.

Definition set_attrName (v : option (list Z)) (x : Vars) : Vars :=
  {| prefix := prefix x; doctype := doctype x; tagName := tagName x;
     attrs := attrs x; attrName := v; writeAttr := writeAttr x;
     endQuote := endQuote x; attrValue := attrValue x;
     currentTag := currentTag x; cbuff := cbuff x |}.

Definition set_writeAttr (v : option Value) (x : Vars) : Vars :=
  {| prefix := prefix x; doctype := doctype x; tagName := tagName x;
     attrs := attrs x; attrName := attrName x; writeAttr := v;
     endQuote := endQuote x; attrValue := attrValue x;
     currentTag := currentTag x; cbuff := cbuff x |}.

Definition set_endQuote (v : option Z) (x : Vars) : Vars :=
  {| prefix := prefix x; doctype := doctype x; tagName := tagName x;
     attrs := attrs x; attrName := attrName x; writeAttr := writeAttr x;
     endQuote := v; attrValue := attrValue x;
     currentTag := currentTag x; cbuff := cbuff x |}.

Definition set_attrValue (v : AttrValue) (x : Vars) : Vars :=
  {| prefix := prefix x; doctype := doctype x; tagName := tagName x;
     attrs := attrs x; attrName := attrName x; writeAttr := writeAttr x;
     endQuote := endQuote x; attrValue := v;
     currentTag := currentTag x; cbuff := cbuff x |}.

Definition set_currentTag (v : option (list Z)) (x : Vars) : Vars :=
  {| prefix := prefix x; doctype := doctype x; tagName := tagName x;
     attrs := attrs x; attrName := attrName x; writeAttr := writeAttr x;
     endQuote := endQuote x; attrValue := attrValue x;
     currentTag := v; cbuff := cbuff x |}.

Definition set_cbuff (v : option (option Z * option Z * option Z)) (x : Vars)
    : Vars :=
  {| prefix := prefix x; doctype := doctype x; tagName := tagName x;
     attrs := attrs x; attrName := attrName x; writeAttr := writeAttr x;
     endQuote := endQuote x; attrValue := attrValue x;
     currentTag := currentTag x; cbuff := v |}.

(** ** The parse context as an object

    [vars] is an object, and a call of [vars.writeAttr( vars, buffer )] that
    resolved to a function of [Object] can change what the object allows:
    [Object.preventExtensions], [Object.seal] and [Object.freeze] take away
    the right to add, to delete and to change properties, [Object.assign]
    copies the three fields of the write buffer into it, and
    [Object.setPrototypeOf] makes the write buffer its prototype.  The state
    functions are not in strict mode: an assignment or a [delete] that the
    object refuses is skipped silently. *)

Inductive Integrity := Extensible | NonExtensible | Sealed | Frozen.

Record Context := {
  fields : Vars;
  integrity : Integrity;
  buffer_fields : bool;        (* has [_buffer], [_offset], [_outs] of its own *)
  buffer_prototype : bool      (* its prototype is the write buffer *)
}.

(** The context as the constructor makes it, and as it stays unless one of
    the functions above is called on it.  A [Vars] given where a context
    is expected stands for this context. *)
Definition ordinary (vars : Vars) : Context :=
  {| fields := vars; integrity := Extensible;
     buffer_fields := false; buffer_prototype := false |}.

#[warnings="-ambiguous-paths"]
Coercion ordinary : Vars >-> Context.
#[warnings="-ambiguous-paths"]
Coercion fields : Context >-> Vars.

Definition with_fields (vars : Vars) (c : Context) : Context :=
  {| fields := vars; integrity := integrity c;
     buffer_fields := buffer_fields c; buffer_prototype := buffer_prototype c |}.

Definition with_integrity (i : Integrity) (c : Context) : Context :=
  {| fields := fields c; integrity := i;
     buffer_fields := buffer_fields c; buffer_prototype := buffer_prototype c |}.

(** [vars.x = v], for a property that is [present] or not. *)
Definition assign (present : bool) (update : Vars -> Vars) (c : Context)
    : Context :=
  match integrity c with
  | Extensible => with_fields (update (fields c)) c
  | NonExtensible | Sealed =>
    if present then with_fields (update (fields c)) c else c
  | Frozen => c
  end.

(** [delete vars.x] *)
Definition delete (update : Vars -> Vars) (c : Context) : Context :=
  match integrity c with
  | Extensible | NonExtensible => with_fields (update (fields c)) c
  | Sealed | Frozen => c
  end.

(** A change made in place to an array the context holds ([push], or an
    assignment to an element): the array is no part of the object. *)
Definition mutate (update : Vars -> Vars) (c : Context) : Context :=
  with_fields (update (fields c)) c.

(** The property is there: its value is not [undefined]. *)
Definition defined {A : Type} (o : option A) : bool :=
  match o with Some _ => true | None => false end.

Definition assign_doctype (v : list Z) (c : Context) : Context :=
  assign (defined (doctype c)) (set_doctype (Some v)) c.
Definition delete_doctype (c : Context) : Context :=
  delete (set_doctype None) c.
Definition assign_tagName (v : TagName) (c : Context) : Context :=
  assign (defined (tagName c)) (set_tagName (Some v)) c.
Definition assign_attrs (v : Attrs) (c : Context) : Context :=
  assign (defined (attrs c)) (set_attrs (Some v)) c.
Definition assign_attrName (v : list Z) (c : Context) : Context :=
  assign (defined (attrName c)) (set_attrName (Some v)) c.
Definition assign_writeAttr (v : Value) (c : Context) : Context :=
  assign (defined (writeAttr c)) (set_writeAttr (Some v)) c.
Definition assign_endQuote (v : Z) (c : Context) : Context :=
  assign (defined (endQuote c)) (set_endQuote (Some v)) c.
Definition assign_attrValue (v : AttrValue) (c : Context) : Context :=
  assign match attrValue c with AV_undefined => false | _ => true end
    (set_attrValue v) c.
Definition assign_currentTag (v : list Z) (c : Context) : Context :=
  assign (defined (currentTag c)) (set_currentTag (Some v)) c.
Definition delete_currentTag (c : Context) : Context :=
  delete (set_currentTag None) c.
Definition assign_cbuff (v : option Z * option Z * option Z) (c : Context)
    : Context :=
  assign (defined (cbuff c)) (set_cbuff (Some v)) c.

(** ** Rewrite strategies *)

(** Write an attribute value.  [writeChunk(false)] loops over no element;
    [undefined.length] is a TypeError. *)
Definition writeValue (vars : Vars) (buffer : WriteBuffer) : Outcome WriteBuffer :=
  match attrValue vars with
  | AV_array value => Returns (writeChunk (CArray value) buffer)
  | AV_false => Returns buffer
  | AV_undefined => Throws TypeError
  end.

(** Write an attribute value, adding the prefix if the value starts with
    one slash but not two.  [value[1]] is undefined, hence different from
    the slash, when the value has one element. *)
Definition prefixValue (vars : Vars) (buffer : WriteBuffer) : Outcome WriteBuffer :=
  match attrValue vars with
  | AV_array value =>
    let buffer :=
      if bool_decide (value !! 0%nat = Some Chars.Slash)
         && negb (bool_decide (value !! 1%nat = Some Chars.Slash))
      then writeChunk (CString (prefix vars)) buffer
      else buffer in
    Returns (writeChunk (CArray value) buffer)
  | AV_false => Returns buffer
  | AV_undefined => Throws TypeError
  end.

(** Rewrite a set of image source set values. *)
Definition prefixSrcSetValues (vars : Vars) (buffer : WriteBuffer)
    : Outcome WriteBuffer :=
  match attrValue vars with
  | AV_array value =>
    let values :=
      join (js ", ")
        (map (fun v =>
                let v := trim v in
                if bool_decide (charCodeAt0 v = Some Chars.Slash)
                then prefix vars ++ v
                else v)
             (split 0x2C (str value))) in
    Returns (writeChunk (CString values) buffer)
  | _ => Throws TypeError      (* [Buffer.from] of a non-array *)
  end.

(** The pattern of [prefixCSSURLValues], flag g: a word boundary, the units
    of url and an opening parenthesis, group 1 holding any run of white
    space, a slash, and group 2 holding one unit other than a slash. *)
Definition css_url_regex : regex :=
  Seq WordBoundary
   (Seq (Chr 0x75) (Seq (Chr 0x72) (Seq (Chr 0x6C) (Seq (Chr 0x28)
   (Seq (Group 1 (StarClass isJSWhiteSpace))
   (Seq (Chr Chars.Slash)
        (Group 2 (Class (fun u => negb (u =? Chars.Slash)))))))))).

(** Rewrite URLs in embedded CSS styles. *)
Definition prefixCSSURLValues (vars : Vars) (buffer : WriteBuffer)
    : Outcome WriteBuffer :=
  match attrValue vars with
  | AV_array arr =>
    let replacement := js "url($1" ++ prefix vars ++ js "/$2" in
    let value := replace css_url_regex 2 replacement (str arr) in
    Returns (writeChunk (CString value) buffer)
  | _ => Throws TypeError
  end.

Definition apply_rewrite (f : Rewrite) : Vars -> WriteBuffer -> Outcome WriteBuffer :=
  match f with
  | F_writeValue => writeValue
  | F_prefixValue => prefixValue
  | F_prefixSrcSetValues => prefixSrcSetValues
  | F_prefixCSSURLValues => prefixCSSURLValues
  end.

(** [Object.preventExtensions], [Object.seal] and [Object.freeze] never
    give back a right. *)
Definition restrict (i : Integrity) (c : Context) : Context :=
  match i, integrity c with
  | Frozen, _ => with_integrity Frozen c
  | Sealed, Frozen => c
  | Sealed, _ => with_integrity Sealed c
  | NonExtensible, Extensible => with_integrity NonExtensible c
  | _, _ => c
  end.

(** A function of [Object] called with the context and the write buffer as
    its arguments.
    - [assign] copies [_buffer], [_offset], [_outs] into the context, and
      raises when the context refuses the first of them.
    - [create] and [defineProperties] read every field of the buffer as a
      property descriptor, and [_offset] is a number; [defineProperty] has
      no descriptor; [fromEntries] wants an iterable; [groupBy] wants a
      function: they raise.
    - [setPrototypeOf] raises when the context is not extensible and the
      buffer is not its prototype already.
    - The others read the context and leave it as it is. *)
Definition call_static (s : ObjectStatic) (vars : Context) : Outcome Context :=
  match s with
  | O_assign =>
    match integrity vars with
    | Extensible =>
      Returns {| fields := fields vars; integrity := Extensible;
                 buffer_fields := true;
                 buffer_prototype := buffer_prototype vars |}
    | NonExtensible | Sealed =>
      if buffer_fields vars then Returns vars else Throws TypeError
    | Frozen => Throws TypeError
    end
  | O_create | O_defineProperties | O_defineProperty | O_fromEntries
  | O_groupBy => Throws TypeError
  | O_preventExtensions => Returns (restrict NonExtensible vars)
  | O_seal => Returns (restrict Sealed vars)
  | O_freeze => Returns (restrict Frozen vars)
  | O_setPrototypeOf =>
    match integrity vars with
    | Extensible =>
      Returns {| fields := fields vars; integrity := Extensible;
                 buffer_fields := buffer_fields vars;
                 buffer_prototype := true |}
    | _ => if buffer_prototype vars then Returns vars else Throws TypeError
    end
  | O_entries | O_getOwnPropertyDescriptor | O_getOwnPropertyDescriptors
  | O_getOwnPropertyNames | O_getOwnPropertySymbols | O_getPrototypeOf
  | O_hasOwn | O_is | O_isExtensible | O_isFrozen | O_isSealed | O_keys
  | O_values => Returns vars
  end.

(** [vars.writeAttr( vars, buffer )] for whatever [writeAttr] holds.
    - Of the function members of Object.prototype, [__defineGetter__] and
      [__defineSetter__] reject a second argument that is not callable;
      the others, [Object] among them, return and change nothing.
    - [apply], [bind], [call] and [toString] of Function.prototype reject
      a receiver that is not a function; [Function] takes the text of its
      two arguments as the parameter and the body of a function, and the
      text of an object is no program.
    - Function.prototype is a function that returns at once.
    - An object that is not a function, a string and a number cannot be
      called. *)
Definition call_writeAttr (w : Value) (vars : Context) (buffer : WriteBuffer)
    : Outcome (WriteBuffer * Context) :=
  match w with
  | VRewrite f =>
    buffer ← apply_rewrite f (fields vars) buffer;
    Returns (buffer, vars)
  | VBuiltin P_defineGetter | VBuiltin P_defineSetter => Throws TypeError
  | VBuiltin _ => Returns (buffer, vars)
  | VObjectPrototype => Throws TypeError
  | VStatic s =>
    vars ← call_static s vars;
    Returns (buffer, vars)
  | VFunctionMember Fn_constructor => Throws SyntaxError
  | VFunctionMember _ => Throws TypeError
  | VFunctionPrototype => Returns (buffer, vars)
  | VPrimitive => Throws TypeError
  | VRestricted => Throws TypeError
  end.

(** ['script' == vars.tagName]: an array compares through its elements
    joined by commas, which is never that word. *)
Definition tagName_is (lit : string) (vars : Vars) : bool :=
  match tagName vars with
  | Some (TagString s) => str_eqb (js lit) s
  | _ => false
  end.

Definition endOfTagCheck (ch : Z) (vars : Vars) (continueState : State) : State :=
  if ch =? Chars.Slash then
    (* Close of tag, revert to write-through. *)
    writethrough
  else if ch =? Chars.Gt then
    if tagName_is "script" vars then
      (* Opening <script> tag, find closing tag. *)
      find_script_end
    else
      (* End of tag, revert to write-through. *)
      writethrough
  else continueState.

(** ** The set of supported attribute rewrites, keyed by tag name *)

Definition RewriteTags : list (string * list (string * Rewrite)) :=
  [ ("base",   [("href", F_prefixValue); ("target", F_prefixValue)]);
    ("link",   [("href", F_prefixValue); ("style", F_prefixCSSURLValues)]);
    ("a",      [("href", F_prefixValue); ("style", F_prefixCSSURLValues)]);
    ("source", [("src", F_prefixValue); ("srcset", F_prefixSrcSetValues)]);
    ("img",    [("src", F_prefixValue); ("srcset", F_prefixSrcSetValues);
                ("style", F_prefixCSSURLValues)]);
    ("iframe", [("src", F_prefixValue); ("style", F_prefixCSSURLValues)]);
    ("embed",  [("src", F_prefixValue); ("style", F_prefixCSSURLValues)]);
    ("video",  [("src", F_prefixValue); ("style", F_prefixCSSURLValues)]);
    ("audio",  [("src", F_prefixValue); ("style", F_prefixCSSURLValues)]);
    ("track",  [("src", F_prefixValue); ("style", F_prefixCSSURLValues)]);
    ("script", [("src", F_prefixValue)]);
    ("*",      [("style", F_prefixCSSURLValues)]) ]%string.

(** [RewriteTags[tagName]]: an own table, or what the name inherits. *)
Definition RewriteTags_get (name : JSString) : option Attrs :=
  match own_property name RewriteTags with
  | Some t => Some (ATable t)
  | None =>
    match ObjectPrototype_member name with
    | Some P_proto => Some AObjectPrototype
    | Some m => Some (ABuiltinFunction m)
    | None => None
    end
  end.

(** The function properties of [Object], by name. *)
Definition Object_statics : list (string * ObjectStatic) :=
  [ ("assign", O_assign); ("create", O_create);
    ("defineProperties", O_defineProperties);
    ("defineProperty", O_defineProperty); ("entries", O_entries);
    ("freeze", O_freeze); ("fromEntries", O_fromEntries);
    ("getOwnPropertyDescriptor", O_getOwnPropertyDescriptor);
    ("getOwnPropertyDescriptors", O_getOwnPropertyDescriptors);
    ("getOwnPropertyNames", O_getOwnPropertyNames);
    ("getOwnPropertySymbols", O_getOwnPropertySymbols);
    ("getPrototypeOf", O_getPrototypeOf); ("groupBy", O_groupBy);
    ("hasOwn", O_hasOwn); ("is", O_is); ("isExtensible", O_isExtensible);
    ("isFrozen", O_isFrozen); ("isSealed", O_isSealed); ("keys", O_keys);
    ("preventExtensions", O_preventExtensions); ("seal", O_seal);
    ("setPrototypeOf", O_setPrototypeOf); ("values", O_values) ]%string.

(** The members of Function.prototype that a function inherits under a
    string name; its own [length] and [name] are hidden by those of the
    function. *)
Definition FunctionPrototype_members : list (string * Value) :=
  [ ("apply", VFunctionMember Fn_apply); ("bind", VFunctionMember Fn_bind);
    ("call", VFunctionMember Fn_call);
    ("constructor", VFunctionMember Fn_constructor);
    ("toString", VFunctionMember Fn_toString);
    ("arguments", VRestricted); ("caller", VRestricted) ]%string.

(** The number of declared parameters of a function member of
    Object.prototype: its [length]. *)
Definition ProtoMember_length (m : ProtoMember) : Z :=
  match m with
  | P_constructor | P_hasOwnProperty | P_isPrototypeOf
  | P_propertyIsEnumerable | P_lookupGetter | P_lookupSetter => 1
  | P_defineGetter | P_defineSetter => 2
  | P_toLocaleString | P_toString | P_valueOf | P_proto => 0
  end.

(** [f[name]] on a function member [f] of Object.prototype: the function's
    own properties ([Object] has its function properties and [prototype]
    besides [length] and [name]), then what Function.prototype gives, then
    what Object.prototype gives.  A [length] of zero counts as nothing. *)
Definition BuiltinFunction_get (m : ProtoMember) (name : JSString)
    : option Value :=
  let own :=
    if str_eqb name (js "length") then
      if ProtoMember_length m =? 0 then Some None else Some (Some VPrimitive)
    else if str_eqb name (js "name") then Some (Some VPrimitive)
    else
      match m with
      | P_constructor =>
        if str_eqb name (js "prototype") then Some (Some VObjectPrototype)
        else
          match own_property name Object_statics with
          | Some s => Some (Some (VStatic s))
          | None => None
          end
      | _ => None
      end in
  match own with
  | Some found => found
  | None =>
    match own_property name FunctionPrototype_members with
    | Some v => Some v
    | None =>
      match ObjectPrototype_member name with
      | Some P_proto => Some VFunctionPrototype
      | Some m' => Some (VBuiltin m')
      | None => None
      end
    end
  end.

(** [vars.attrs[attrName]].  Read on Object.prototype itself, [__proto__]
    is null. *)
Definition Attrs_get (a : Attrs) (name : JSString) : option Value :=
  match a with
  | ATable t =>
    match own_property name t with
    | Some f => Some (VRewrite f)
    | None =>
      match ObjectPrototype_member name with
      | Some P_proto => Some VObjectPrototype
      | Some m => Some (VBuiltin m)
      | None => None
      end
    end
  | AObjectPrototype =>
    match ObjectPrototype_member name with
    | Some P_proto => None
    | Some m => Some (VBuiltin m)
    | None => None
    end
  | ABuiltinFunction m => BuiltinFunction_get m name
  end.

Definition DOCTYPE : JSString := js "!doctypehtml".

(** ** The parser state machine

    Each function takes the character, the buffer and the context, and
    returns the next state (or nothing, for a function that falls off its
    end) with the buffer and the context as it left them. *)

Definition Step : Type := option State * WriteBuffer * Context.

Definition SM_find_doctype (ch : Z) (buffer : WriteBuffer) (vars : Context)
    : Outcome Step :=
  let buffer := writeChar ch buffer in
  (* Skip whitespace before doctype. *)
  if isWhitespace ch then Returns (Some find_doctype, buffer, vars)
  (* Start reading doctype. *)
  else if ch =? Chars.Lt then
    Returns (Some read_doctype, buffer, assign_doctype [] vars)
  (* Illegal or non-HTML content? Stop transforming doc. *)
  else Returns (Some writethrough_to_end, buffer, vars).

Definition SM_read_doctype (ch : Z) (buffer : WriteBuffer) (vars : Context)
    : Outcome Step :=
  let buffer := writeChar ch buffer in
  if ch =? Chars.Gt then
    match doctype vars with
    | None => Throws TypeError
    | Some d =>
      (* See if we have html doctype. *)
      let dt := toLowerCase (str d) in
      let vars := delete_doctype vars in
      if str_eqb dt DOCTYPE then Returns (Some writethrough, buffer, vars)
      (* Unrecognized doctype, stop transformation. *)
      else Returns (Some writethrough_to_end, buffer, vars)
    end
  else
    match doctype vars with
    | None => Throws TypeError
    | Some d =>
      (* Note that only non-whitespace chars are added to the doctype buffer. *)
      let d := if negb (isWhitespace ch) then d ++ [ch] else d in
      let vars := mutate (set_doctype (Some d)) vars in
      (* If we've gone beyond the expected doctype length then stop trying
         to transform the document. *)
      if (length DOCTYPE <? length d)%nat then
        Returns (Some writethrough_to_end, buffer, delete_doctype vars)
      (* Continue reading doctype. *)
      else Returns (Some read_doctype, buffer, vars)
    end.

Definition SM_writethrough (ch : Z) (buffer : WriteBuffer) (vars : Context)
    : Outcome Step :=
  let buffer := writeChar ch buffer in
  if ch =? Chars.Lt then
    Returns (Some read_tag_name, buffer, assign_tagName (TagArray []) vars)
  else Returns (Some writethrough, buffer, vars).

Definition SM_writethrough_to_end (ch : Z) (buffer : WriteBuffer) (vars : Context)
    : Outcome Step :=
  let buffer := writeChar ch buffer in
  Returns (Some writethrough_to_end, buffer, vars).

(** The part of [read-tag-name] that runs once the name is complete;
    [name] is the local [tagName], which the context may refuse to take. *)
Definition finish_tag_name (name : JSString) (ch : Z) (buffer : WriteBuffer)
    (vars : Context) : Outcome Step :=
  let vars := assign_tagName (TagString name) vars in
  (* Check for start of comment. *)
  if str_eqb (js "!--") name then
    Returns (Some find_comment_end, buffer, assign_cbuff (None, None, None) vars)
  else
    (* Check if we have a set of rewrite attributes for the element. *)
    let attrs :=
      match RewriteTags_get name with
      | Some a => Some a
      | None => RewriteTags_get (js "*")     (* Global rewrites. *)
      end in
    match attrs with
    | Some a =>
      let vars := assign_attrs a vars in
      Returns (Some (endOfTagCheck ch vars find_attr_name_start), buffer, vars)
    | None => Returns (None, buffer, vars)
    end.

(** With an array in [vars.tagName] the name is being read; with a string
    there, left by a context that refused [vars.tagName = []], [push] is
    no function, and the string is converted as its own units. *)
Definition SM_read_tag_name (ch : Z) (buffer : WriteBuffer) (vars : Context)
    : Outcome Step :=
  let buffer := writeChar ch buffer in
  match tagName vars with
  | Some (TagArray a) =>
    if isTagChar ch then
      Returns (Some read_tag_name, buffer,
               mutate (set_tagName (Some (TagArray (a ++ [ch])))) vars)
    else
      (* Convert tag name to string. *)
      finish_tag_name (toLowerCase (str a)) ch buffer vars
  | Some (TagString s) =>
    if isTagChar ch then Throws TypeError
    else finish_tag_name (toLowerCase s) ch buffer vars
  | None => Throws TypeError
  end.

(** Find the start of an attribute name. *)
Definition SM_find_attr_name_start (ch : Z) (buffer : WriteBuffer) (vars : Context)
    : Outcome Step :=
  let buffer := writeChar ch buffer in
  if isNameChar ch then
    Returns (Some read_attr_name, buffer, assign_attrName [ch] vars)
  else Returns (Some (endOfTagCheck ch vars find_attr_name_start), buffer, vars).

(** Read an attribute name.  Reading [arguments] or [caller] on a function
    raises. *)
Definition SM_read_attr_name (ch : Z) (buffer : WriteBuffer) (vars : Context)
    : Outcome Step :=
  let buffer := writeChar ch buffer in
  match attrName vars with
  | None => Throws TypeError
  | Some n =>
    if isNameChar ch then
      Returns (Some read_attr_name, buffer,
               mutate (set_attrName (Some (n ++ [ch]))) vars)
    else
      (* Check whether attribute name needs to be written. *)
      let name := str n in
      match attrs vars with
      | None => Throws TypeError
      | Some a =>
        match Attrs_get a name with
        | Some VRestricted => Throws TypeError
        | found =>
          let w := match found with
                   | Some v => v
                   | None => VRewrite F_writeValue
                   end in
          let vars := assign_writeAttr w vars in
          if ch =? Chars.Equals then
            (* Have the attribute assignment, find the start of value. *)
            Returns (Some find_attr_value_start, buffer, vars)
          else Returns (Some find_attr_equals, buffer, vars)
        end
      end
  end.

(** Find attribute assignment. *)
Definition SM_find_attr_equals (ch : Z) (buffer : WriteBuffer) (vars : Context)
    : Outcome Step :=
  let buffer := writeChar ch buffer in
  if ch =? Chars.Equals then Returns (Some find_attr_value_start, buffer, vars)
  else if isNameChar ch then
    (* There was no assignment and this is start of the next attr name. *)
    Returns (Some read_attr_name, buffer, assign_attrName [ch] vars)
  else Returns (Some (endOfTagCheck ch vars find_attr_equals), buffer, vars).

(** Find start of attribute value. *)
Definition SM_find_attr_value_start (ch : Z) (buffer : WriteBuffer) (vars : Context)
    : Outcome Step :=
  if (ch =? Chars.DQuote) || (ch =? Chars.SQuote) then
    let buffer := writeChar ch buffer in
    let vars := assign_attrValue (AV_array []) (assign_endQuote ch vars) in
    Returns (Some find_attr_value_end_quote, buffer, vars)
  else if isNonWhitespace ch then
    Returns (Some find_attr_value_end_no_quote, buffer,
             assign_attrValue (AV_array [ch]) vars)
  else Returns (Some find_attr_value_start, buffer, vars).

(** [vars.writeAttr( vars, buffer ); vars.attrValue = false;
    buffer.writeChar( ch )], shared by the four places that end a value. *)
Definition write_attr_and_char (ch : Z) (buffer : WriteBuffer) (vars : Context)
    : Outcome (WriteBuffer * Context) :=
  match writeAttr vars with
  | None => Throws TypeError
  | Some w =>
    '(buffer, vars) ← call_writeAttr w vars buffer;
    Returns (writeChar ch buffer, assign_attrValue AV_false vars)
  end.

(** [vars.attrValue.push( ch )] *)
Definition push_attrValue (ch : Z) (vars : Context) : Outcome Context :=
  match attrValue vars with
  | AV_array a => Returns (mutate (set_attrValue (AV_array (a ++ [ch]))) vars)
  | _ => Throws TypeError
  end.

(** Find end of quoted attribute value. *)
Definition SM_find_attr_value_end_quote (ch : Z) (buffer : WriteBuffer)
    (vars : Context) : Outcome Step :=
  if bool_decide (Some ch = endQuote vars) then
    '(buffer, vars) ← write_attr_and_char ch buffer vars;
    Returns (Some find_attr_name_start, buffer, vars)
  else if ch =? Chars.Gt then   (* End of tag without end quote. *)
    '(buffer, vars) ← write_attr_and_char ch buffer vars;
    (* Call end of tag check to ensure <script> handling. *)
    Returns (Some (endOfTagCheck ch (fields vars) writethrough), buffer, vars)
  else
    vars ← push_attrValue ch vars;
    Returns (Some find_attr_value_end_quote, buffer, vars).

(** Find end of non-quoted attribute value. *)
Definition SM_find_attr_value_end_no_quote (ch : Z) (buffer : WriteBuffer)
    (vars : Context) : Outcome Step :=
  if isWhitespace ch then
    '(buffer, vars) ← write_attr_and_char ch buffer vars;
    Returns (Some find_attr_name_start, buffer, vars)
  else if ch =? Chars.Gt then   (* End of tag without end quote. *)
    '(buffer, vars) ← write_attr_and_char ch buffer vars;
    (* Call end of tag check to ensure <script> handling. *)
    Returns (Some (endOfTagCheck ch (fields vars) writethrough), buffer, vars)
  else
    vars ← push_attrValue ch vars;
    Returns (Some find_attr_value_end_no_quote, buffer, vars).

(** Find end of tag. *)
Definition SM_find_tag_end (ch : Z) (buffer : WriteBuffer) (vars : Context)
    : Outcome Step :=
  let buffer := writeChar ch buffer in
  Returns (Some (endOfTagCheck ch vars find_tag_end), buffer, vars).

(** Find end of <script> block. *)
Definition SM_find_script_end (ch : Z) (buffer : WriteBuffer) (vars : Context)
    : Outcome Step :=
  let buffer := writeChar ch buffer in
  if ch =? Chars.Lt then
    (* Start of a tag, start recording its name. *)
    Returns (Some find_script_end, buffer, assign_currentTag [] vars)
  else
    match currentTag vars with
    | Some t =>
      (* Recording a tag name, add slash or name chars to the buffer... *)
      if (ch =? Chars.Slash) || isNameChar ch then
        Returns (Some find_script_end, buffer,
                 mutate (set_currentTag (Some (t ++ [ch]))) vars)
      (* ...else have the full tag name, check if it matches end of script... *)
      else if str_eqb (str t) (js "/script") then
        (* ...and if so then revert to write-through mode. *)
        Returns (Some writethrough, buffer, vars)
      (* ...otherwise done with this tag. *)
      else Returns (Some find_script_end, buffer, delete_currentTag vars)
    | None => Returns (Some find_script_end, buffer, vars)
    end.

(** Find the end of a comment. *)
Definition SM_find_comment_end (ch : Z) (buffer : WriteBuffer) (vars : Context)
    : Outcome Step :=
  let buffer := writeChar ch buffer in
  match cbuff vars with
  | None => Throws TypeError
  | Some (_, c1, c2) =>
    (* Rotate comment buffer. *)
    let vars := mutate (set_cbuff (Some (c1, c2, Some ch))) vars in
    (* Check for end of comment sequence. *)
    if bool_decide (c1 = Some Chars.Dash) && bool_decide (c2 = Some Chars.Dash)
       && (ch =? Chars.Gt)
    then Returns (Some writethrough, buffer, vars)
    else Returns (Some find_comment_end, buffer, vars)
  end.

Definition SM (state : State) : Z -> WriteBuffer -> Context -> Outcome Step :=
  match state with
  | find_doctype => SM_find_doctype
  | read_doctype => SM_read_doctype
  | writethrough => SM_writethrough
  | writethrough_to_end => SM_writethrough_to_end
  | read_tag_name => SM_read_tag_name
  | find_attr_name_start => SM_find_attr_name_start
  | read_attr_name => SM_read_attr_name
  | find_attr_equals => SM_find_attr_equals
  | find_attr_value_start => SM_find_attr_value_start
  | find_attr_value_end_quote => SM_find_attr_value_end_quote
  | find_attr_value_end_no_quote => SM_find_attr_value_end_no_quote
  | find_tag_end => SM_find_tag_end
  | find_script_end => SM_find_script_end
  | find_comment_end => SM_find_comment_end
  end.

(** ** An HTML stream transformer *)

Module HTMLTransformer.

Record t := {
  _vars : Context;
  _state : State;
  _buffer : WriteBuffer
}.

(** What a call of a stream method leaves behind: the object, and how many
    times the [callback] it was given has been invoked. *)
Record Call := {
  this : t;
  callbacks : nat
}.

(** Make a new transformer.  A trailing slash on the prefix is removed. *)
Definition new (prefix : JSString) : t :=
  let prefix :=
    if bool_decide (prefix !! (length prefix - 1)%nat = Some Chars.Slash)
    then take (length prefix - 1) prefix
    else prefix in
  {| _vars := {| prefix := prefix; doctype := None; tagName := None;
                 attrs := None; attrName := None; writeAttr := None;
                 endQuote := None; attrValue := AV_undefined;
                 currentTag := None; cbuff := None |};
     _state := find_doctype;
     _buffer := WriteBuffer_new 4096 |}.

(** The loop of [_transform]: [step] is [SM[state]], and a state without an
    entry in [SM] is a bad transition. *)
Fixpoint transform_loop (chunk : list Z) (state : State) (buffer : WriteBuffer)
    (vars : Context) : Outcome (State * WriteBuffer * Context) :=
  match chunk with
  | [] => Returns (state, buffer, vars)
  | ch :: rest =>
    '(next, buffer, vars) ← SM state ch buffer vars;
    match next with
    | Some state' => transform_loop rest state' buffer vars
    | None => Throws (BadParserStateTransition state)
    end
  end.

Definition _transform (self : t) (chunk : list Z) : Outcome Call :=
  '(state, buffer, vars) ←
    transform_loop chunk (_state self) (_buffer self) (_vars self);
  Returns {| this := {| _vars := vars; _state := state; _buffer := buffer |};
             callbacks := 1 |}.

Definition _flush (self : t) : Call :=
  let buffer :=
    match attrValue (_vars self) with
    | AV_array a => writeChunk (CArray a) (_buffer self)
    | _ => _buffer self
    end in
  {| this := {| _vars := _vars self; _state := _state self;
                _buffer := flush buffer |};
     callbacks := 0 |}.

(** [write(chunk)] for each chunk in turn. *)
Fixpoint write_all (self : t) (chunks : list (list Z)) : Outcome t :=
  match chunks with
  | [] => Returns self
  | chunk :: rest =>
    c ← _transform self chunk;
    write_all (this c) rest
  end.

(** The whole life of a transformer: construction, the chunks, [end()]. *)
Definition run (prefix : JSString) (chunks : list (list Z)) : Outcome Call :=
  self ← write_all (new prefix) chunks;
  Returns (_flush self).

(** The bytes pushed downstream. *)
Definition pushed (self : t) : list Z := concat (_outs (_buffer self)).

Definition output (prefix : JSString) (chunks : list (list Z))
    : Outcome (list Z) :=
  c ← run prefix chunks;
  Returns (pushed (this c)).

End HTMLTransformer.

Definition is_byte (b : Z) : Prop := 0 <= b < 256.

#[global] Instance is_byte_dec b : Decision (is_byte b).
Proof. unfold is_byte. apply _. Defined.

(** A source text as the bytes of a chunk. *)
Definition doc (s : string) : list Z := js s.

(** ** Specifications *)

(** The bytes [writeChunk] stores for a string: the low eight bits of each
    unit. *)
Definition low_bytes (s : JSString) : list Z := map (fun u => Z.land u 255) s.

(** The write buffer of a transformer always has room for one byte after a
    flush, and its offset stays within the region. *)
Definition buffer_ok (wb : WriteBuffer) : Prop :=
  (0 < length (_buffer wb))%nat /\ (_offset wb <= length (_buffer wb))%nat.

(** *** Single-URL: a value whose first unit is a slash and whose second
    unit is not *)
Definition single_leading_slash (value : list Z) : bool :=
  match value with
  | first :: rest =>
    (first =? Chars.Slash)
    && match rest with
       | second :: _ => negb (second =? Chars.Slash)
       | [] => true
       end
  | [] => false
  end.

(** *** URL-list: split on commas, trim, prefix the candidates that begin
    with a slash, rejoin with a comma and a space; on the bytes of the
    value *)
Definition srcset_rewritten (prefix value : list Z) : list Z :=
  join (js ", ")
    (map (fun candidate =>
            let candidate := trim candidate in
            match candidate with
            | first :: _ => if first =? Chars.Slash then prefix ++ candidate
                            else candidate
            | [] => candidate
            end)
         (split 0x2C value)).

(** *** CSS-URL *)

Fixpoint starts_with (p s : list Z) : bool :=
  match p, s with
  | [], _ => true
  | a :: p', b :: s' => (a =? b) && starts_with p' s'
  | _ :: _, [] => false
  end.

(** Length of the run of white space at the head of [s]. *)
Fixpoint white_run (s : list Z) : nat :=
  match s with
  | u :: r => if isJSWhiteSpace u then S (white_run r) else O
  | [] => O
  end.

(** The pattern as the claim words it: [url(], optional white space and a
    slash not followed by another slash.  Gives the number of white-space
    units when [s] begins with an occurrence. *)
Definition css_url_claimed_at (s : list Z) : option nat :=
  if starts_with (js "url(") s then
    let n := white_run (drop 4 s) in
    match drop (4 + n) s with
    | slash :: rest =>
      if (slash =? Chars.Slash) && negb (bool_decide (head rest = Some Chars.Slash))
      then Some n else None
    | [] => None
    end
  else None.

(** The prefix inserted before the slash of every occurrence found from
    left to right, the search resuming after that slash. *)
Equations? css_rewritten_claimed (prefix : list Z) (s : list Z) : list Z
    by wf (length s) lt :=
css_rewritten_claimed prefix [] := [];
css_rewritten_claimed prefix (c :: t) with css_url_claimed_at (c :: t) := {
  | Some n => take (4 + n) (c :: t) ++ prefix ++ [Chars.Slash]
              ++ css_rewritten_claimed prefix (drop (4 + n) t)
  | None => c :: css_rewritten_claimed prefix t }.
Proof. all: rewrite ?length_drop; simpl; lia. Qed.

(** The pattern as the code has it: [url(] not preceded by a letter, a
    digit or an underscore, optional white space, a slash, and one further
    unit that is not a slash and belongs to the occurrence. *)
Definition css_url_at (prev : option Z) (s : list Z) : option nat :=
  if negb (isWordCharAt prev) && starts_with (js "url(") s then
    let n := white_run (drop 4 s) in
    match drop (4 + n) s with
    | slash :: next :: _ =>
      if (slash =? Chars.Slash) && negb (next =? Chars.Slash)
      then Some n else None
    | _ => None
    end
  else None.

(** The prefix inserted before the slash of every occurrence found from
    left to right, the search resuming after the unit that follows that
    slash; [prev] is the unit before [s]. *)
Equations? css_rewritten (prefix : list Z) (prev : option Z) (s : list Z)
    : list Z by wf (length s) lt :=
css_rewritten prefix prev [] := [];
css_rewritten prefix prev (c :: t) with css_url_at prev (c :: t) := {
  | Some n => take (4 + n) (c :: t) ++ prefix ++ take 2 (drop (4 + n) (c :: t))
              ++ css_rewritten prefix ((c :: t) !! (5 + n)%nat) (drop (5 + n) t)
  | None => c :: css_rewritten prefix (Some c) t }.
Proof. all: rewrite ?length_drop; simpl; lia. Qed.

(** A replacement pattern of [String.prototype.replace] starts at the head
    of [s], for a pattern with two groups and no named group: [$$], [$&],
    [$`], [$'], [$1], [$2], [$01] or [$02]. *)
Definition replacement_pattern_at (s : JSString) : bool :=
  match s with
  | c :: d :: r =>
    (c =? 0x24)
    && ((d =? 0x24) || (d =? 0x26) || (d =? 0x60) || (d =? 0x27)
        || (d =? 0x31) || (d =? 0x32)
        || ((d =? 0x30)
            && match r with
               | d2 :: _ => (d2 =? 0x31) || (d2 =? 0x32)
               | [] => false
               end))
  | _ => false
  end.

(** No replacement pattern starts anywhere in [s]. *)
Fixpoint dollar_safe (s : JSString) : bool :=
  match s with
  | [] => true
  | _ :: t => negb (replacement_pattern_at s) && dollar_safe t
  end.

(** *** Doctype gating *)

(** ASCII lower case of a byte sequence. *)
Definition ascii_lower (bytes : list Z) : list Z :=
  map (fun b => if (Chars.A <=? b) && (b <=? Chars.Z_) then b + 32 else b) bytes.

(** The input begins, after optional white space, with a declaration
    between [<] and the first [>] whose content without white space is, up
    to ASCII case, [!doctypehtml]. *)
Definition html5_doctype_first (input : list Z) : Prop :=
  exists ws body rest,
    input = ws ++ [Chars.Lt] ++ body ++ [Chars.Gt] ++ rest
    /\ Forall (fun b => isWhitespace b = true) ws
    /\ Forall (fun b => b <> Chars.Gt) body
    /\ ascii_lower (filter (fun b => isWhitespace b = false) body) = DOCTYPE.

(** The same, decided by a scan: skip the white space, expect [<], take
    the units up to the first [>]. *)
Fixpoint skip_whitespace (s : list Z) : list Z :=
  match s with
  | b :: r => if isWhitespace b then skip_whitespace r else s
  | [] => []
  end.

Fixpoint up_to_gt (s : list Z) : option (list Z) :=
  match s with
  | [] => None
  | b :: r =>
    if b =? Chars.Gt then Some []
    else match up_to_gt r with
         | Some body => Some (b :: body)
         | None => None
         end
  end.

Definition html5_doctype_firstb (input : list Z) : bool :=
  match skip_whitespace input with
  | b :: r =>
    (b =? Chars.Lt)
    && match up_to_gt r with
       | Some body =>
         bool_decide
           (ascii_lower (filter (fun b => isWhitespace b = false) body) = DOCTYPE)
       | None => false
       end
  | [] => false
  end.

(** *** A parse context in which the value of an attribute has been read *)
Definition vars_with (prefix : JSString) (value : list Z) : Vars :=
  {| prefix := prefix; doctype := None; tagName := None; attrs := None;
     attrName := None; writeAttr := None; endQuote := None;
     attrValue := AV_array value; currentTag := None; cbuff := None |}.

(** Names without an upper-case letter, as the keys of the tables are. *)
Definition no_upper_case (name : JSString) : bool :=
  forallb (fun u => negb ((Chars.A <=? u) && (u <=? Chars.Z_))) name.

(** *** Invariants used in the proofs *)

(** An open UTF-8 sequence can only complete to a code point from 0x80 on:
    the lead bytes below 0xC2 are refused and the first continuation byte
    after 0xE0 and 0xF0 is bounded from below. *)
Definition pending_ok (st : Utf8State) : Prop :=
  match u_needed st with
  | 0%nat => True
  | 1%nat => 128 <= u_cp st * 64 + (u_lower st - 128)
  | 2%nat => 2 <= u_cp st * 64 + (u_lower st - 128)
  | 3%nat => 1 <= u_cp st * 64 + (u_lower st - 128)
  | _ => False
  end.

(** The units of [!doctypehtml]: below 0x80, and neither [i] nor [k]. *)
Definition doctype_unit (u : Z) : Prop := u < 128 /\ u <> 0x69 /\ u <> 0x6B.

(** What holds of the machine while it has not recognised the doctype,
    [consumed] being the input read so far. *)
Definition gate (consumed : list Z) (st : State) (vars : Vars) : Prop :=
  attrValue vars = AV_undefined /\
  match st with
  | find_doctype => Forall (fun b => isWhitespace b = true) consumed
  | read_doctype =>
    exists ws body,
      consumed = ws ++ Chars.Lt :: body
      /\ Forall (fun b => isWhitespace b = true) ws
      /\ Forall (fun b => b <> Chars.Gt) body
      /\ Forall is_byte body
      /\ doctype vars = Some (filter (fun b => isWhitespace b = false) body)
  | writethrough_to_end => True
  | _ => False
  end.

(** *** Further notions used to state properties of the machine *)

(** Writing the units of [l] one after the other. *)
Definition write_units (l : list Z) (wb : WriteBuffer) : WriteBuffer :=
  fold_left (fun wb u => writeChar u wb) l wb.

(** A buffer of capacity [cap] whose pushed chunks all hold [cap] bytes:
    what holds as long as [flush] is called by [writeChar] only. *)
Definition chunks_full (cap : nat) (wb : WriteBuffer) : Prop :=
  length (_buffer wb) = cap
  /\ (_offset wb <= cap)%nat
  /\ Forall (fun c => length c = cap) (_outs wb).

(** The fields of the context a state reads are set when the machine is in
    that state, a value is being collected in the two value states only,
    and [find-tag-end] is not among the states. *)
Definition collecting (st : State) : bool :=
  match st with
  | find_attr_value_end_quote | find_attr_value_end_no_quote => true
  | _ => false
  end.

Definition context_ok (st : State) (vars : Vars) : Prop :=
  (if collecting st then exists a, attrValue vars = AV_array a
   else forall a, attrValue vars <> AV_array a)
  /\ match st with
     | find_doctype | writethrough | writethrough_to_end | find_script_end => True
     | read_doctype => doctype vars <> None
     | read_tag_name => exists a, tagName vars = Some (TagArray a)
     | find_attr_name_start => attrs vars <> None
     | read_attr_name => attrs vars <> None /\ attrName vars <> None
     | find_attr_equals | find_attr_value_start
     | find_attr_value_end_quote | find_attr_value_end_no_quote =>
       attrs vars <> None /\ writeAttr vars <> None
     | find_comment_end => cbuff vars <> None
     | find_tag_end => False
     end.

(** The values of [writeAttr] whose call, made with a collected value,
    returns and leaves the context as it is: the strategies, and the
    function members of Object.prototype other than [__defineGetter__] and
    [__defineSetter__]. *)
Definition harmless (w : Value) : bool :=
  match w with
  | VRewrite _ => true
  | VBuiltin P_defineGetter | VBuiltin P_defineSetter => false
  | VBuiltin _ => true
  | _ => false
  end.

(** What holds of the context while the input read so far, [consumed],
    names no tag [constructor] and has no underscore: the context is
    extensible, the strategy resolved for the current attribute is
    harmless, the attribute name read so far is made of name characters
    other than the underscore, the attributes are looked up in a table of
    [RewriteTags], and the tag name being read is the end of the input read
    so far. *)
Definition calm (consumed : list Z) (st : State) (c : Context) : Prop :=
  integrity c = Extensible
  /\ (forall w, writeAttr (fields c) = Some w -> harmless w = true)
  /\ (forall n, attrName (fields c) = Some n ->
        Forall (fun b => isNameChar b = true /\ b <> Chars.Underscore) n)
  /\ (forall a, attrs (fields c) = Some a -> exists t, a = ATable t)
  /\ (st = read_tag_name ->
        exists a pre,
          tagName (fields c) = Some (TagArray a)
          /\ consumed = pre ++ a
          /\ Forall (fun b => isTagChar b = true /\ b <> Chars.Underscore) a).



(** [RewriteTags[ vars.tagName ] || RewriteTags['*']]: the table of a tag,
    the global one when the tag has none. *)
Definition rewrites_for (name : JSString) : option Attrs :=
  match RewriteTags_get name with
  | Some a => Some a
  | None => RewriteTags_get (js "*")
  end.

(** [p] occurs in [s] as a run of consecutive units. *)
Definition occurs_in (p s : list Z) : Prop :=
  exists pre post, s = pre ++ p ++ post.

(** The same, decided by trying every position. *)
Fixpoint occurs_inb (p s : list Z) : bool :=
  match s with
  | [] => bool_decide (p = [])
  | _ :: r => bool_decide (take (length p) s = p) || occurs_inb p r
  end.

(** * Filesets (index.js, fileset.js, processor.js, json-data-fsp.js,
    page-fsp.js)

    The fileset definitions, their validation by the [Fileset] constructor,
    and the file records the processors make.  File contents, glob
    matching and fingerprints are the business of other packages and are
    kept abstract. *)

Module Filesets.

(** ** Processor classes *)

Inductive Class := FilesetProcessor | PageFSP | RelocatablePageFSP | JSONDataFSP.

(** The classes on the prototype chain of an instance, nearest first. *)
Definition prototype_chain (c : Class) : list Class :=
  match c with
  | FilesetProcessor => [FilesetProcessor]
  | PageFSP => [PageFSP; FilesetProcessor]
  | RelocatablePageFSP => [RelocatablePageFSP; PageFSP; FilesetProcessor]
  | JSONDataFSP => [JSONDataFSP; FilesetProcessor]
  end.

(** The methods each class body declares. *)
Definition declares (c : Class) : list string :=
  match c with
  | FilesetProcessor =>
    ["constructor"; "makeFileRecord"; "makeSearchRecord"; "readContents";
     "pipeContents"]
  | PageFSP => ["constructor"; "makeFileRecord"; "makeSearchRecord"]
  | RelocatablePageFSP => ["constructor"; "pipeContents"]
  | JSONDataFSP => ["constructor"; "makeFileRecord"]
  end%string.

(** [this[name]] is defined on an instance: one of the two fields the
    constructor sets, a method of a class on the chain, or a member of
    Object.prototype. *)
Definition has_member (c : Class) (name : string) : bool :=
  existsb (String.eqb name) ["_loader"; "_category"]%string
  || existsb (fun k => existsb (String.eqb name) (declares k)) (prototype_chain c)
  || bool_decide (ObjectPrototype_member (js name) <> None).

(** ** Values

    The values a fileset definition is made of.  A number is an integer; a
    function is known by its source text; an object is the list of its own
    properties. *)
#[warnings="-register-all"]
Inductive JSValue :=
  | JUndefined
  | JNull
  | JBool (b : bool)
  | JNumber (n : Z)
  | JStr (s : string)
  | JArray (elements : list JSValue)
  | JFunction (source : string)
  | JProcessor (c : Class) (_loader _category : JSValue)
  | JObject (properties : list (string * JSValue)).

(** [!!v] *)
Definition truthy (v : JSValue) : bool :=
  match v with
  | JUndefined | JNull => false
  | JBool b => b
  | JNumber n => negb (n =? 0)
  | JStr s => negb (String.eqb s EmptyString)
  | JArray _ | JFunction _ | JProcessor _ _ _ | JObject _ => true
  end.

(** [v === undefined] *)
Definition is_undefined (v : JSValue) : bool :=
  match v with JUndefined => true | _ => false end.

(** [typeof v == 'boolean'] *)
Definition is_boolean (v : JSValue) : bool :=
  match v with JBool _ => true | _ => false end.

(** [typeof v == 'function'] *)
Definition is_function (v : JSValue) : bool :=
  match v with JFunction _ => true | _ => false end.

(** [v instanceof FilesetProcessor] *)
Definition is_processor (v : JSValue) : bool :=
  match v with JProcessor _ _ _ => true | _ => false end.

(** A destructuring default: taken when the property is [undefined]. *)
Definition or_default (d v : JSValue) : JSValue :=
  if is_undefined v then d else v.

Fixpoint lookup (name : string) (o : list (string * JSValue)) : option JSValue :=
  match o with
  | [] => None
  | (k, v) :: r => if String.eqb k name then Some v else lookup name r
  end.

(** [o[name]] for a value that is neither [undefined] nor [null]: an own
    property of an object or what it inherits from Object.prototype, a
    field or a method of a processor; on an array and on a string, of the
    names read below only [includes] is defined, as a method. *)
Definition get (o : JSValue) (name : string) : JSValue :=
  match o with
  | JObject properties =>
    match lookup name properties with
    | Some v => v
    | None =>
      match ObjectPrototype_member (js name) with
      | Some P_proto => JObject []
      | Some _ => JFunction "native code"%string
      | None => JUndefined
      end
    end
  | JProcessor c l cat =>
    if String.eqb name "_loader"%string then l
    else if String.eqb name "_category"%string then cat
    else if has_member c name then JFunction name
    else JUndefined
  | JArray _ | JStr _ =>
    if String.eqb name "includes"%string then JFunction "native code"%string
    else JUndefined
  | _ => JUndefined
  end.

(** ** Errors and results *)

Inductive JSError :=
  | DefinitionRequired                    (* Fileset definition is required *)
  | MustBeProvided (property : string)    (* Fileset ... property must be provided *)
  | MustBeArray (property : string)       (* ... must be an array *)
  | MustBeBoolean (property : string)     (* ... must be a boolean *)
  | MustBeFunction (property : string)    (* ... must be a function *)
  | MustBeProcessor (property : string)   (* ... must be a FilesetProcessor instance *)
  | NotAFunction (member : string).       (* TypeError: this.member is not a function *)

(** [External]: the call went on into the file loader, the HTML parser or
    the JSON parser; the embedding stops there. *)
Inductive Result (A : Type) :=
  | Ok (a : A)
  | Raise (e : JSError)
  | External.
Arguments Ok {A} a.
Arguments Raise {A} e.
Arguments External {A}.

#[global] Instance Result_ret : MRet Result := fun A a => Ok a.

#[global] Instance Result_bind : MBind Result := fun A B f o =>
  match o with
  | Ok a => f a
  | Raise e => Raise e
  | External => External
  end.

(** ** File records *)

Module FileRecord.
Record t := {
  path : JSValue;
  category : JSValue;
  status : string
}.
End FileRecord.

(** What [makeFileRecord] of a processor resolves to: a record, or
    [false]. *)
Inductive Made :=
  | Made_record (record : FileRecord.t)
  | Made_false.

(** [new FilesetProcessor( loader, category )], and the same through
    [super] for the classes that extend it. *)
Definition Processor_new (c : Class) (loader category : JSValue) : JSValue :=
  JProcessor c loader category.

(** [FilesetProcessor.makeFileRecord] *)
Definition FilesetProcessor_makeFileRecord (_category path active : JSValue)
    : FileRecord.t :=
  let category := _category in
  let status := (if truthy active then "published" else "deleted")%string in
  {| FileRecord.path := path; FileRecord.category := category;
     FileRecord.status := status |}.

(** [JSONDataFSP.makeFileRecord]: [this.readFile] is called as a function. *)
Definition JSONDataFSP_makeFileRecord (_category path active : JSValue)
    : Result Made :=
  let record := FilesetProcessor_makeFileRecord _category path active in
  if String.eqb (FileRecord.status record) "deleted"%string then Ok Made_false
  else if has_member JSONDataFSP "readFile"%string then External
  else Raise (NotAFunction "readFile"%string).

(** [PageFSP.makeFileRecord]: [this.readContents] goes to the loader. *)
Definition PageFSP_makeFileRecord (c : Class) (_category path active : JSValue)
    : Result Made :=
  let record := FilesetProcessor_makeFileRecord _category path active in
  if String.eqb (FileRecord.status record) "deleted"%string then Ok Made_false
  else if has_member c "readContents"%string then External
  else Raise (NotAFunction "readContents"%string).

(** [processor.makeFileRecord( ctx, path, active, commit )], by the class
    of the processor. *)
Definition Processor_makeFileRecord (processor path active : JSValue)
    : Result Made :=
  match processor with
  | JProcessor FilesetProcessor _ _category =>
    Ok (Made_record (FilesetProcessor_makeFileRecord _category path active))
  | JProcessor JSONDataFSP _ _category =>
    JSONDataFSP_makeFileRecord _category path active
  | JProcessor PageFSP _ _category =>
    PageFSP_makeFileRecord PageFSP _category path active
  | JProcessor RelocatablePageFSP _ _category =>
    PageFSP_makeFileRecord RelocatablePageFSP _category path active
  | _ => Raise (NotAFunction "makeFileRecord"%string)
  end.

(** ** A fileset *)

Module Fileset.

Section Externals.

(** [makeCompliment] of the glob package, and [fingerprint] of the
    canonical JSON text of its five arguments. *)
Context {Globset Fingerprint : Type}.
Variable makeCompliment : list JSValue -> list JSValue -> Result Globset.
Variable fingerprint :
  list JSValue -> list JSValue -> JSValue -> JSValue -> JSValue -> Result Fingerprint.

Record t := {
  category : JSValue;
  priority : JSValue;
  restricted : JSValue;
  searchable : JSValue;
  acm : JSValue;
  cacheControl : JSValue;
  _processor : JSValue;
  _globset : Globset;
  fingerprint_ : Fingerprint
}.

(** [new Fileset( definition, priority )] *)
Definition new (definition priority : JSValue) : Result t :=
  let priority := or_default (JNumber 0) priority in
  if negb (truthy definition) then Raise DefinitionRequired else
  let category := get definition "category"%string in
  let cacheControl := get definition "cacheControl"%string in
  let restricted := or_default (JBool false) (get definition "restricted"%string) in
  let searchable := or_default (JBool false) (get definition "searchable"%string) in
  let include := get definition "include"%string in
  let includes := or_default (JArray []) (get definition "includes"%string) in
  let exclude := get definition "exclude"%string in
  let excludes := or_default (JArray []) (get definition "excludes"%string) in
  let acm := or_default (JFunction "files => files"%string) (get definition "acm"%string) in
  let processor :=
    or_default (Processor_new FilesetProcessor category JUndefined)
      (get definition "processor"%string) in
  (* The fileset category. *)
  if negb (truthy category) then Raise (MustBeProvided "category"%string) else
  match includes with
  | JArray includes =>
    let includes :=
      if negb (is_undefined include) then includes ++ [include] else includes in
    match excludes with
    | JArray excludes =>
      let excludes :=
        if negb (is_undefined exclude) then excludes ++ [exclude] else excludes in
      if negb (is_boolean restricted) then Raise (MustBeBoolean "restricted"%string) else
      if negb (is_boolean searchable) then Raise (MustBeBoolean "searchable"%string) else
      if negb (is_function acm) then Raise (MustBeFunction "acm"%string) else
      (* The fileset contents processor. *)
      if negb (is_processor processor) then Raise (MustBeProcessor "processor"%string) else
      globset ← makeCompliment includes excludes;
      fp ← fingerprint includes excludes restricted processor acm;
      Ok {| category := category; priority := priority;
            restricted := restricted; searchable := searchable; acm := acm;
            cacheControl := cacheControl; _processor := processor;
            _globset := globset; fingerprint_ := fp |}
    | _ => Raise (MustBeArray "excludes"%string)
    end
  | _ => Raise (MustBeArray "includes"%string)
  end.

(** Process a file path by generating its file record. *)
Definition makeFileRecord (self : t) (path active : JSValue) : Result Made :=
  Processor_makeFileRecord (_processor self) path active.

End Externals.

End Fileset.

(** ** index.js *)

(** [new FileLoader()]: an object without fields, with the methods of its
    class. *)
Definition FileLoader_new : JSValue :=
  JObject [ ("FileLoader", JFunction "FileLoader");
            ("_resolvePath", JFunction "_resolvePath");
            ("readFile", JFunction "readFile");
            ("pipeFile", JFunction "pipeFile") ]%string.

(** The definitions of the default filesets, in priority order. *)
Definition DefaultFilesets_definitions (loader : JSValue) : list JSValue :=
  [ JObject [ ("category", JStr "app"); ("cache", JStr "app");
              ("includes", JArray [JStr "pwa/**/*"; JStr "sw.js";
                                   JStr "manifest.webmanifest"]) ];
    JObject [ ("category", JStr "server"); ("cache", JStr "none");
              ("include", JStr "_server/**/*") ];
    JObject [ ("category", JStr "pages"); ("cache", JStr "none");
              ("searchable", JBool true);
              ("processor", Processor_new RelocatablePageFSP loader (JStr "pages"));
              ("include", JStr "**/*.html") ];
    JObject [ ("category", JStr "json"); ("cache", JStr "none");
              ("processor", Processor_new JSONDataFSP loader (JStr "json"));
              ("include", JStr "**/*.json");
              ("excludes", JArray [JStr "locomote.json"; JStr "_locomote/**/*"]) ];
    JObject [ ("category", JStr "files"); ("cache", JStr "content");
              ("cacheControl", JStr "public, must-revalidate, max-age=60");
              ("include", JStr "**/*");
              ("excludes", JArray [JStr "locomote.json"; JStr "_locomote/**/*"]) ]
  ]%string.

(** [array.map( callback )] for a callback that may throw. *)
Fixpoint map_throwing {A B : Type} (callback : A -> Result B) (array : list A)
    : Result (list B) :=
  match array with
  | [] => Ok []
  | x :: rest =>
    y ← callback x;
    ys ← map_throwing callback rest;
    Ok (y :: ys)
  end.

(** [init( loader )], up to the filesets its functions close over.  The
    callback passes three arguments to a constructor of two: the loader is
    taken as the definition, the definition as the priority. *)
Definition init {Globset Fingerprint : Type}
    (makeCompliment : list JSValue -> list JSValue -> Result Globset)
    (fingerprint : list JSValue -> list JSValue -> JSValue -> JSValue -> JSValue
                   -> Result Fingerprint)
    (loader : JSValue) : Result (list (@Fileset.t Globset Fingerprint)) :=
  let loader := or_default FileLoader_new loader in
  map_throwing
    (fun definition => Fileset.new makeCompliment fingerprint loader definition)
    (DefaultFilesets_definitions loader).

End Filesets.

(** * Properties *)

(** In the statements below a [Vars] stands for the ordinary context that
    holds it, also inside a result. *)
#[local] Arguments Returns {A} & a.
#[local] Arguments pair {A B} & _ _.

(** Assignments to an ordinary context are carried out. *)
Ltac ctx_simpl :=
  cbn [fields integrity buffer_fields buffer_prototype ordinary with_fields
       with_integrity assign delete mutate defined
       assign_doctype delete_doctype assign_tagName assign_attrs
       assign_attrName assign_writeAttr assign_endQuote assign_attrValue
       assign_currentTag delete_currentTag assign_cbuff].

Tactic Notation "ctx_simpl" "in" hyp(H) :=
  cbn [fields integrity buffer_fields buffer_prototype ordinary with_fields
       with_integrity assign delete mutate defined
       assign_doctype delete_doctype assign_tagName assign_attrs
       assign_attrName assign_writeAttr assign_endQuote assign_attrValue
       assign_currentTag delete_currentTag assign_cbuff] in H.


(** ** The write buffer *)

Lemma land_255_byte b : is_byte b -> Z.land b 255 = b.
Proof.
  intros Hb. change 255 with (Z.ones 8).
  rewrite Z.land_ones by lia. apply Z.mod_small. exact Hb.
Qed.

Lemma low_bytes_bytes l : Forall is_byte l -> low_bytes l = l.
Proof.
  induction 1 as [|b l Hb _ IH]; [reflexivity|].
  unfold low_bytes in *. simpl. rewrite IH, land_255_byte; auto.
Qed.

Lemma low_bytes_app a b : low_bytes (a ++ b) = low_bytes a ++ low_bytes b.
Proof. apply map_app. Qed.

Lemma buffer_ok_new n : (0 < n)%nat -> buffer_ok (WriteBuffer_new n).
Proof.
  intros Hn. unfold buffer_ok, WriteBuffer_new, Buffer_alloc. simpl.
  rewrite repeat_length. lia.
Qed.

Lemma written_new n : written (WriteBuffer_new n) = [].
Proof. reflexivity. Qed.

(** One character written: one more byte, whether or not the region had to
    be pushed downstream first. *)
Lemma writeChar_written ch wb :
  buffer_ok wb ->
  written (writeChar ch wb) = written wb ++ [Z.land ch 255]
  /\ buffer_ok (writeChar ch wb).
Proof.
  intros [Hlen Hoff]. unfold writeChar, written, buffer_ok.
  destruct (length (_buffer wb) <=? _offset wb)%nat eqn:Hfull.
  - apply Nat.leb_le in Hfull.
    assert (Heq : _offset wb = length (_buffer wb)) by lia.
    unfold flush. simpl.
    assert (Hpos : (0 <? _offset wb)%nat = true) by (apply Nat.ltb_lt; lia).
    rewrite Hpos. unfold Buffer_alloc.
    rewrite length_insert, repeat_length.
    destruct (length (_buffer wb)) as [|n] eqn:Hn; [lia|].
    simpl. rewrite take_0. rewrite concat_app. simpl.
    rewrite app_nil_r, <- app_assoc. split; [reflexivity|lia].
  - apply Nat.leb_gt in Hfull. simpl.
    rewrite length_insert. split; [|lia].
    rewrite <- app_assoc. f_equal.
    destruct (lookup_lt_is_Some_2 (_buffer wb) (_offset wb) Hfull) as [x Hx].
    rewrite (take_S_r _ _ (Z.land ch 255)).
    + rewrite take_insert_ge by lia. reflexivity.
    + apply list_lookup_insert_eq. exact Hfull.
Qed.

Lemma write_units_written l wb :
  buffer_ok wb ->
  written (fold_left (fun wb u => writeChar u wb) l wb) = written wb ++ low_bytes l
  /\ buffer_ok (fold_left (fun wb u => writeChar u wb) l wb).
Proof.
  revert wb. induction l as [|u l IH]; intros wb Hok; simpl.
  - rewrite app_nil_r. auto.
  - destruct (writeChar_written u wb Hok) as [Hw Hok'].
    destruct (IH _ Hok') as [Hw' Hok''].
    split; [|exact Hok''].
    rewrite Hw', Hw, <- app_assoc. reflexivity.
Qed.

Lemma writeChunk_string_written s wb :
  buffer_ok wb ->
  written (writeChunk (CString s) wb) = written wb ++ low_bytes s
  /\ buffer_ok (writeChunk (CString s) wb).
Proof. apply write_units_written. Qed.

Lemma writeChunk_array_written a wb :
  buffer_ok wb ->
  written (writeChunk (CArray a) wb) = written wb ++ low_bytes a
  /\ buffer_ok (writeChunk (CArray a) wb).
Proof. apply write_units_written. Qed.

(** Flushing hands every pending byte downstream. *)
Lemma flush_outs wb : concat (_outs (flush wb)) = written wb.
Proof.
  unfold flush, written. simpl.
  destruct (0 <? _offset wb)%nat eqn:Hpos.
  - rewrite concat_app. simpl. rewrite app_nil_r. reflexivity.
  - apply Nat.ltb_ge in Hpos. assert (_offset wb = 0%nat) as -> by lia.
    rewrite take_0, app_nil_r. reflexivity.
Qed.

(** ** Single-URL rewriting *)

Lemma single_leading_slash_index value :
  bool_decide (value !! 0%nat = Some Chars.Slash)
  && negb (bool_decide (value !! 1%nat = Some Chars.Slash))
  = single_leading_slash value.
Proof.
  destruct value as [|a [|b r]]; simpl; [reflexivity| |].
  - rewrite andb_true_r. destruct (Z.eqb_spec a Chars.Slash) as [->|Hne].
    + apply bool_decide_eq_true. reflexivity.
    + apply bool_decide_eq_false. congruence.
  - f_equal; [|f_equal].
    + destruct (Z.eqb_spec a Chars.Slash) as [->|Hne].
      * apply bool_decide_eq_true. reflexivity.
      * apply bool_decide_eq_false. congruence.
    + destruct (Z.eqb_spec b Chars.Slash) as [->|Hne].
      * apply bool_decide_eq_true. reflexivity.
      * apply bool_decide_eq_false. congruence.
Qed.

(** ** Decoding and lower-casing against an ASCII literal *)

Lemma units_of_code_point_high cp :
  128 <= cp -> exists u r, units_of_code_point cp = u :: r /\ 128 <= u.
Proof.
  intros Hcp. unfold units_of_code_point.
  destruct (cp <? 0x10000) eqn:Hlt.
  - eauto.
  - apply Z.ltb_ge in Hlt. eexists _, _. split; [reflexivity|].
    assert (0 <= (cp - 0x10000) / 0x400) by (apply Z.div_pos; lia). lia.
Qed.

Lemma utf8_start_pending b : pending_ok (snd (utf8_start b)).
Proof.
  unfold utf8_start.
  repeat match goal with
         | |- context [if ?c then _ else _] => destruct c eqn:?
         end; unfold pending_ok; simpl; lia.
Qed.

(** A decoded string made of units below 0x80 only is the byte sequence it
    was decoded from. *)
Lemma utf8_decode_from_ascii bytes : forall st,
  pending_ok st ->
  Forall (fun u => u < 128) (utf8_decode_from st bytes) ->
  u_needed st = 0%nat
  /\ utf8_decode_from st bytes = bytes
  /\ Forall (fun b => b < 128) bytes.
Proof.
  induction bytes as [|b rest IH]; intros st Hp Hall; simpl in *.
  - destruct (u_needed st); [auto|].
    inversion Hall; subst; lia.
  - destruct (u_needed st) as [|n] eqn:Hn.
    + pose proof (utf8_start_pending b) as Hp'.
      unfold utf8_start in *.
      destruct (b <=? 0x7F) eqn:Hb.
      * simpl in *. inversion Hall as [|? ? Hu Hall']; subst.
        destruct (IH _ Hp' Hall') as (_ & -> & Hrest). auto.
      * exfalso.
        repeat match type of Hall with
               | context [if ?c then _ else _] => destruct c eqn:?
               end; simpl in *;
          try (inversion Hall; subst; lia);
          apply (IH _ Hp') in Hall as [Hz _]; discriminate.
    + exfalso. unfold pending_ok in Hp. rewrite Hn in Hp.
      destruct ((u_lower st <=? b) && (b <=? u_upper st)) eqn:Hrange.
      * apply andb_true_iff in Hrange as [Hlo Hhi].
        apply Z.leb_le in Hlo. apply Z.leb_le in Hhi.
        destruct n as [|[|[|n]]]; try contradiction.
        -- destruct (units_of_code_point_high (u_cp st * 64 + (b - 128)))
             as (u & r & Hu & Hhigh); [lia|].
           rewrite Hu in Hall. simpl in Hall.
           inversion Hall; subst; lia.
        -- apply IH in Hall as [Hz _]; [discriminate|].
           unfold pending_ok. simpl. lia.
        -- apply IH in Hall as [Hz _]; [discriminate|].
           unfold pending_ok. simpl. lia.
      * destruct (utf8_start b). inversion Hall; subst; lia.
Qed.

Lemma toLowerCase_doctype_units us :
  Forall doctype_unit (toLowerCase us) ->
  Forall (fun u => u < 128) us /\ toLowerCase us = ascii_lower us.
Proof.
  induction us as [|u us IH]; simpl; [auto|].
  intros Hall. apply Forall_app in Hall as [Hu Hall].
  destruct (IH Hall) as [Hlt ->].
  unfold lower_unit in *. unfold doctype_unit in Hu.
  destruct ((Chars.A <=? u) && (u <=? Chars.Z_)) eqn:Hupper.
  - apply andb_true_iff in Hupper as [_ Hz]. apply Z.leb_le in Hz.
    unfold Chars.Z_ in Hz. split; [constructor; [lia|assumption]|reflexivity].
  - destruct (u =? 0x130) eqn:H130.
    { inversion Hu as [|? ? (_ & Hi & _) _]. congruence. }
    destruct (u =? 0x212A) eqn:H212a.
    { inversion Hu as [|? ? (_ & _ & Hk) _]. congruence. }
    inversion Hu as [|? ? (Hu' & _) _].
    split; [constructor; assumption|reflexivity].
Qed.

Lemma DOCTYPE_units : Forall doctype_unit DOCTYPE.
Proof.
  change DOCTYPE with [33; 100; 111; 99; 116; 121; 112; 101; 104; 116; 109; 108].
  repeat constructor; unfold doctype_unit; lia.
Qed.

(** The doctype test of [read-doctype] succeeds only on bytes that are, up
    to ASCII case, the literal. *)
Lemma doctype_test_ascii d :
  Forall is_byte d ->
  toLowerCase (str d) = DOCTYPE ->
  ascii_lower d = DOCTYPE.
Proof.
  intros Hbytes Heq. unfold str in Heq.
  fold (low_bytes d) in Heq. rewrite low_bytes_bytes in Heq by assumption.
  pose proof DOCTYPE_units as Hunits. rewrite <- Heq in Hunits.
  apply toLowerCase_doctype_units in Hunits as [Hlt Hlow].
  apply utf8_decode_from_ascii in Hlt as (_ & Hdec & _); [|exact I].
  unfold utf8_decode in *. rewrite Hdec in *. congruence.
Qed.

(** ** Chunks *)

(** Processing a chunk in two parts is processing it whole. *)
Lemma transform_loop_app a b : forall st buf vars,
  HTMLTransformer.transform_loop (a ++ b) st buf vars =
  '(st', buf', vars') ← HTMLTransformer.transform_loop a st buf vars;
  HTMLTransformer.transform_loop b st' buf' vars'.
Proof.
  induction a as [|ch a IH]; intros st buf vars; simpl; [reflexivity|].
  destruct (SM st ch buf vars) as [[[[st'|] buf'] vars']|]; simpl; auto.
Qed.

(** The chunking of the input does not matter to the machine. *)
Lemma write_all_concat chunks : forall self,
  HTMLTransformer.write_all self chunks =
  '(st, buf, vars) ←
    HTMLTransformer.transform_loop (concat chunks)
      (HTMLTransformer._state self) (HTMLTransformer._buffer self)
      (HTMLTransformer._vars self);
  Returns {| HTMLTransformer._vars := vars; HTMLTransformer._state := st;
             HTMLTransformer._buffer := buf |}.
Proof.
  induction chunks as [|chunk chunks IH]; intros self; simpl.
  - destruct self; reflexivity.
  - rewrite transform_loop_app. unfold HTMLTransformer._transform.
    destruct (HTMLTransformer.transform_loop chunk _ _ _)
      as [[[st buf] vars]|]; simpl; auto.
Qed.

(** At the end of the stream everything written, and the value left open
    if there is one, has been pushed downstream. *)
Lemma _flush_pushed self :
  HTMLTransformer.pushed (HTMLTransformer.this (HTMLTransformer._flush self)) =
  written match attrValue (HTMLTransformer._vars self) with
          | AV_array a => writeChunk (CArray a) (HTMLTransformer._buffer self)
          | _ => HTMLTransformer._buffer self
          end.
Proof.
  unfold HTMLTransformer.pushed, HTMLTransformer._flush.
  cbn [HTMLTransformer.this HTMLTransformer._buffer]. apply flush_outs.
Qed.

(** ** Doctype gating *)

(** One step of a machine that has not recognised the doctype copies the
    byte and stays short of [writethrough], unless the input read so far
    is the doctype declaration. *)
Lemma gate_step consumed st vars buf ch rest :
  gate consumed st vars ->
  buffer_ok buf ->
  is_byte ch ->
  ~ html5_doctype_first (consumed ++ ch :: rest) ->
  exists st' buf' (vars' : Vars),
    SM st ch buf vars = Returns (Some st', buf', vars')
    /\ gate (consumed ++ [ch]) st' vars'
    /\ written buf' = written buf ++ [ch]
    /\ buffer_ok buf'.
Proof.
  intros [Hav Hgate] Hok Hbyte Hno.
  destruct (writeChar_written ch buf Hok) as [Hw Hok'].
  rewrite (land_255_byte ch Hbyte) in Hw.
  destruct st; try contradiction; cbn [SM].
  - (* find-doctype *)
    unfold SM_find_doctype.
    destruct (isWhitespace ch) eqn:Hws.
    + eexists _, _, _. split; [reflexivity|]. repeat split; auto; try apply Hok'.
      apply Forall_app. split; [assumption|]. repeat constructor. assumption.
    + destruct (Z.eqb_spec ch Chars.Lt) as [->|Hne].
      * eexists _, _, _. split; [reflexivity|]. repeat split; auto; try apply Hok'.
        exists consumed, []. repeat split; auto; try apply Hok'.
      * eexists _, _, _. split; [reflexivity|]. repeat split; auto; try apply Hok'.
  - (* read-doctype *)
    destruct Hgate as (ws & body & -> & Hws & Hbody & Hbytes & Hd).
    unfold SM_read_doctype. ctx_simpl. rewrite Hd.
    destruct (Z.eqb_spec ch Chars.Gt) as [->|Hne].
    + destruct (str_eqb _ DOCTYPE) eqn:Hmatch.
      * exfalso. apply Hno. apply bool_decide_eq_true in Hmatch.
        apply doctype_test_ascii in Hmatch.
        -- exists ws, body, rest. repeat split; auto; try apply Hok'.
           rewrite <- app_assoc. reflexivity.
        -- apply Forall_forall. intros x Hx.
           apply list_elem_of_filter in Hx as [_ Hx].
           rewrite Forall_forall in Hbytes. apply Hbytes. exact Hx.
      * eexists _, _, _. split; [reflexivity|]. repeat split; auto; try apply Hok'.
    + set (d := if negb (isWhitespace ch) then _ else _).
      assert (Hd' : d = filter (fun b => isWhitespace b = false) (body ++ [ch])).
      { subst d. rewrite filter_app.
        destruct (isWhitespace ch) eqn:Hwsc; simpl.
        - rewrite filter_cons_False by congruence.
          rewrite filter_nil, app_nil_r. reflexivity.
        - rewrite filter_cons_True by assumption.
          rewrite filter_nil. reflexivity. }
      destruct (length DOCTYPE <? length d)%nat.
      * eexists _, _, _. split; [reflexivity|]. repeat split; auto; try apply Hok'.
      * eexists _, _, _. split; [reflexivity|]. repeat split; auto; try apply Hok'.
        exists ws, (body ++ [ch]). repeat split.
        -- rewrite <- app_assoc. reflexivity.
        -- assumption.
        -- apply Forall_app. split; [assumption|]. repeat constructor. assumption.
        -- apply Forall_app. split; [assumption|]. repeat constructor; apply Hbyte.
        -- simpl. rewrite Hd'. reflexivity.
  - (* writethrough-to-end *)
    eexists _, _, _. split; [reflexivity|]. repeat split; auto; try apply Hok'.
Qed.

Lemma gate_run rest : forall consumed st vars buf,
  gate consumed st vars ->
  buffer_ok buf ->
  Forall is_byte rest ->
  ~ html5_doctype_first (consumed ++ rest) ->
  exists st' buf' (vars' : Vars),
    HTMLTransformer.transform_loop rest st buf vars = Returns (st', buf', vars')
    /\ written buf' = written buf ++ rest
    /\ attrValue vars' = AV_undefined.
Proof.
  induction rest as [|ch rest IH]; intros consumed st vars buf Hgate Hok Hbytes Hno.
  - exists st, buf, vars. simpl. rewrite app_nil_r.
    destruct Hgate. auto.
  - inversion Hbytes as [|? ? Hch Hrest]; subst.
    destruct (gate_step _ _ _ _ _ _ Hgate Hok Hch Hno)
      as (st' & buf' & vars' & Hstep & Hgate' & Hw & Hok').
    simpl. rewrite Hstep. simpl.
    destruct (IH (consumed ++ [ch]) st' vars' buf' Hgate' Hok' Hrest)
      as (st2 & buf2 & vars2 & Hrun & Hw2 & Hav).
    { rewrite <- app_assoc. exact Hno. }
    exists st2, buf2, vars2. split; [exact Hrun|]. split; [|exact Hav].
    rewrite Hw2, Hw, <- app_assoc. reflexivity.
Qed.

(** C6.  An input that does not begin, after optional white space, with a
    declaration whose content without white space is [!doctypehtml] up to
    case and which ends at [>], is emitted unchanged, whatever the prefix
    and the chunking; more than twelve units before [>] is one such case. *)
Theorem doctype_gating prefix chunks :
  Forall is_byte (concat chunks) ->
  ~ html5_doctype_first (concat chunks) ->
  HTMLTransformer.output prefix chunks = Returns (concat chunks).
Proof.
  intros Hbytes Hno.
  unfold HTMLTransformer.output, HTMLTransformer.run.
  rewrite write_all_concat.
  change (HTMLTransformer._state (HTMLTransformer.new prefix)) with find_doctype.
  destruct (gate_run (concat chunks) [] find_doctype
              (HTMLTransformer._vars (HTMLTransformer.new prefix))
              (HTMLTransformer._buffer (HTMLTransformer.new prefix)))
    as (st & buf & vars & Hrun & Hw & Hav); auto.
  - split; [reflexivity|constructor].
  - apply buffer_ok_new. lia.
  - change (HTMLTransformer._vars (HTMLTransformer.new prefix))
      with (ordinary (HTMLTransformer._vars (HTMLTransformer.new prefix))).
    rewrite Hrun. unfold mbind, Outcome_bind. cbv beta iota zeta.
    rewrite _flush_pushed.
    cbn [HTMLTransformer._vars HTMLTransformer._buffer fields ordinary].
    rewrite Hav, Hw. reflexivity.
Qed.

(** ** CSS-URL rewriting: the pattern matcher against the direct scan *)

Lemma white_run_le s : (white_run s <= length s)%nat.
Proof.
  induction s as [|u r IH]; simpl; [lia|].
  destruct (isJSWhiteSpace u); simpl; lia.
Qed.

(** A greedy run of white space followed by something that cannot start
    with white space and does not look behind: no shorter run is tried
    with success, so the run is taken whole. *)
Lemma star_class_white_run (k : Continuation) t : forall prev caps,
  (forall p1 p2 r c, k p1 r c = k p2 r c) ->
  (forall p u r c, isJSWhiteSpace u = true -> k p (u :: r) c = None) ->
  star_class isJSWhiteSpace prev t caps k = k prev (drop (white_run t) t) caps.
Proof.
  intros prev caps Hprev Hfail. revert prev.
  induction t as [|u r IH]; intros prev; simpl; [reflexivity|].
  destruct (isJSWhiteSpace u) eqn:Hu; simpl; [|reflexivity].
  rewrite IH. rewrite (Hprev (Some u) prev).
  destruct (k prev (drop (white_run r) r) caps) eqn:Hk; [reflexivity|].
  apply Hfail. exact Hu.
Qed.

Lemma starts_with_app p : forall s,
  starts_with p s = true -> s = p ++ drop (length p) s.
Proof.
  induction p as [|a p IH]; intros [|b s] H; simpl in *;
    try reflexivity; try discriminate.
  apply andb_true_iff in H as [Hab Hrest].
  apply Z.eqb_eq in Hab as ->. f_equal. apply IH. exact Hrest.
Qed.

Lemma starts_with_refl p r : starts_with p (p ++ r) = true.
Proof.
  induction p as [|a p IH]; simpl; [reflexivity|].
  rewrite Z.eqb_refl. exact IH.
Qed.

(** What an occurrence found by the scan looks like. *)
Lemma css_url_at_Some prev s n :
  css_url_at prev s = Some n ->
  exists ws next rest,
    s = js "url(" ++ ws ++ Chars.Slash :: next :: rest
    /\ length ws = n
    /\ white_run (ws ++ Chars.Slash :: next :: rest) = n
    /\ next <> Chars.Slash
    /\ isWordCharAt prev = false.
Proof.
  unfold css_url_at. intros H.
  destruct (negb (isWordCharAt prev)) eqn:Hw; [|discriminate].
  apply negb_true_iff in Hw.
  destruct (starts_with (js "url(") s) eqn:Hsw; [|discriminate].
  apply starts_with_app in Hsw.
  change (length (js "url(")) with 4%nat in Hsw.
  cbn [andb] in H. cbv zeta in H.
  rewrite <- drop_drop in H.
  set (t := drop 4 s) in *.
  destruct (drop (white_run t) t) as [|slash [|next rest]] eqn:Hdrop;
    try discriminate.
  destruct (Z.eqb_spec slash Chars.Slash) as [->|]; [|discriminate].
  destruct (Z.eqb_spec next Chars.Slash) as [|Hnext]; [discriminate|].
  injection H as <-.
  exists (take (white_run t) t), next, rest.
  assert (Ht : t = take (white_run t) t ++ Chars.Slash :: next :: rest).
  { rewrite <- Hdrop. symmetry. apply take_drop. }
  repeat split; auto.
  - rewrite <- Ht. exact Hsw.
  - rewrite length_take. pose proof (white_run_le t). lia.
  - rewrite <- Ht. reflexivity.
Qed.

Lemma js_url : js "url(" = [117; 114; 108; 40].
Proof. reflexivity. Qed.

Lemma isJSWhiteSpace_not_slash u : isJSWhiteSpace u = true -> (u =? Chars.Slash) = false.
Proof.
  intros H. destruct (Z.eqb_spec u Chars.Slash) as [->|]; [discriminate H|reflexivity].
Qed.

(** The pattern of [prefixCSSURLValues] tried at one position: it matches
    exactly where the direct scan sees an occurrence, and captures the run
    of white space and the unit after the slash. *)
Lemma regex_exec_css prev s :
  regex_exec_at css_url_regex prev s =
  if negb (isWordCharAt prev) && starts_with (js "url(") s then
    let t := drop 4 s in
    match drop (white_run t) t with
    | slash :: next :: rest =>
      if (slash =? Chars.Slash) && negb (next =? Chars.Slash)
      then Some (rest, [(2%nat, [next]); (1%nat, take (white_run t) t)])
      else None
    | _ => None
    end
  else None.
Proof.
  unfold regex_exec_at, css_url_regex. rewrite js_url. cbn [rmatch].
  destruct s as [|a s].
  { cbn. destruct (isWordCharAt prev); reflexivity. }
  cbn [head starts_with].
  rewrite (Z.eqb_sym 117 a).
  destruct (Z.eqb_spec a 117) as [->|Ha].
  2:{ rewrite andb_false_r. destruct (xorb _ _); reflexivity. }
  change (isWordCharAt (Some 117)) with true. rewrite xorb_true_r.
  destruct (negb (isWordCharAt prev)); [|reflexivity].
  cbn [andb].
  destruct s as [|b s]; [reflexivity|]. cbn [starts_with].
  rewrite (Z.eqb_sym 114 b).
  destruct (b =? 114); [|reflexivity]. cbn [andb].
  destruct s as [|c s]; [reflexivity|]. cbn [starts_with].
  rewrite (Z.eqb_sym 108 c).
  destruct (c =? 108); [|reflexivity]. cbn [andb].
  destruct s as [|d t]; [reflexivity|]. cbn [starts_with].
  rewrite (Z.eqb_sym 40 d).
  destruct (d =? 40); [|reflexivity]. cbn [andb].
  cbv zeta. change (drop 4 (117 :: b :: c :: d :: t)) with t.
  rewrite star_class_white_run.
  - pose proof (white_run_le t) as Hle.
    rewrite length_drop.
    replace (length t - (length t - white_run t))%nat with (white_run t) by lia.
    destruct (drop (white_run t) t) as [|slash [|next rest]]; [reflexivity| |].
    + destruct (slash =? Chars.Slash); reflexivity.
    + destruct (slash =? Chars.Slash); [|reflexivity].
      cbn [andb]. destruct (next =? Chars.Slash); [reflexivity|].
      cbn [negb length]. replace (S (length rest) - length rest)%nat with 1%nat by lia.
      reflexivity.
  - reflexivity.
  - intros p u r c' Hu. rewrite (isJSWhiteSpace_not_slash u Hu). reflexivity.
Qed.

Lemma css_url_at_nil prev : css_url_at prev [] = None.
Proof.
  unfold css_url_at. rewrite js_url. simpl.
  rewrite andb_false_r. reflexivity.
Qed.

Lemma regex_exec_css_None prev s :
  css_url_at prev s = None -> regex_exec_at css_url_regex prev s = None.
Proof.
  rewrite regex_exec_css. unfold css_url_at.
  destruct (negb (isWordCharAt prev) && starts_with (js "url(") s); [|reflexivity].
  cbv zeta. rewrite <- drop_drop.
  destruct (drop (white_run (drop 4 s)) (drop 4 s)) as [|slash [|next rest]];
    try reflexivity.
  destruct ((slash =? Chars.Slash) && negb (next =? Chars.Slash));
    [discriminate|reflexivity].
Qed.

Lemma regex_exec_css_Some prev ws next rest :
  isWordCharAt prev = false ->
  white_run (ws ++ Chars.Slash :: next :: rest) = length ws ->
  next <> Chars.Slash ->
  regex_exec_at css_url_regex prev (js "url(" ++ ws ++ Chars.Slash :: next :: rest)
  = Some (rest, [(2%nat, [next]); (1%nat, ws)]).
Proof.
  intros Hw Hrun Hnext. rewrite regex_exec_css.
  rewrite Hw, starts_with_refl. cbn [negb andb]. cbv zeta.
  rewrite js_url. change (drop 4 ([117; 114; 108; 40] ++ ?x)) with x.
  rewrite Hrun, drop_app_length, take_app_length.
  rewrite Z.eqb_refl. apply Z.eqb_neq in Hnext. rewrite Hnext. reflexivity.
Qed.

Lemma css_url_at_intro prev ws next rest :
  isWordCharAt prev = false ->
  white_run (ws ++ Chars.Slash :: next :: rest) = length ws ->
  next <> Chars.Slash ->
  css_url_at prev (js "url(" ++ ws ++ Chars.Slash :: next :: rest)
  = Some (length ws).
Proof.
  intros Hw Hrun Hnext. unfold css_url_at.
  rewrite Hw, starts_with_refl. cbn [negb andb]. cbv zeta.
  rewrite <- drop_drop.
  rewrite js_url. change (drop 4 ([117; 114; 108; 40] ++ ?x)) with x.
  rewrite Hrun, drop_app_length.
  rewrite Z.eqb_refl. apply Z.eqb_neq in Hnext. rewrite Hnext. reflexivity.
Qed.

(** The two steps of the direct scan. *)
Lemma css_rewritten_occurrence prefix prev ws next rest :
  isWordCharAt prev = false ->
  white_run (ws ++ Chars.Slash :: next :: rest) = length ws ->
  next <> Chars.Slash ->
  css_rewritten prefix prev (js "url(" ++ ws ++ Chars.Slash :: next :: rest)
  = js "url(" ++ ws ++ prefix ++ [Chars.Slash; next]
    ++ css_rewritten prefix (Some next) rest.
Proof.
  intros Hw Hrun Hnext.
  pose proof (css_url_at_intro prev ws next rest Hw Hrun Hnext) as Hat.
  rewrite js_url in *. cbn [app] in *.
  rewrite css_rewritten_equation_2, Hat, css_rewritten_clause_2_equation_1.
  change (117 :: 114 :: 108 :: 40 :: ws ++ Chars.Slash :: next :: rest)
    with ([117; 114; 108; 40] ++ ws ++ Chars.Slash :: next :: rest).
  change (114 :: 108 :: 40 :: ws ++ Chars.Slash :: next :: rest)
    with ([114; 108; 40] ++ ws ++ Chars.Slash :: next :: rest).
  rewrite (app_assoc [117; 114; 108; 40] ws).
  assert (Hl4 : (4 + length ws)%nat = length ([117; 114; 108; 40] ++ ws))
    by (rewrite length_app; reflexivity).
  rewrite Hl4, take_app_length, drop_app_length.
  assert (Hdrop : drop (5 + length ws)
                    ([114; 108; 40] ++ ws ++ Chars.Slash :: next :: rest) = rest).
  { change (Chars.Slash :: next :: rest) with ([Chars.Slash; next] ++ rest).
    rewrite !app_assoc.
    replace (5 + length ws)%nat
      with (length (([114; 108; 40] ++ ws) ++ [Chars.Slash; next]))
      by (rewrite !length_app; simpl; lia).
    apply drop_app_length. }
  assert (Hlk : (([117; 114; 108; 40] ++ ws) ++ Chars.Slash :: next :: rest)
                !! (5 + length ws)%nat = Some next).
  { rewrite lookup_app_r by (rewrite length_app; simpl; lia).
    replace (_ - _)%nat with 1%nat by (rewrite length_app; simpl; lia).
    reflexivity. }
  rewrite Hdrop, Hlk. rewrite <- app_assoc. reflexivity.
Qed.

Lemma css_rewritten_copy prefix prev c t :
  css_url_at prev (c :: t) = None ->
  css_rewritten prefix prev (c :: t) = c :: css_rewritten prefix (Some c) t.
Proof.
  intros H.
  rewrite css_rewritten_equation_2, H, css_rewritten_clause_2_equation_2.
  reflexivity.
Qed.

(** ** The replacement template *)

Lemma GetSubstitution_plain m caps matched before after p t :
  Forall (fun u => u <> 36) p ->
  GetSubstitution m caps matched before after (p ++ t)
  = p ++ GetSubstitution m caps matched before after t.
Proof.
  induction 1 as [|c p Hc _ IH]; [reflexivity|].
  cbn [app GetSubstitution].
  apply Z.eqb_neq in Hc. rewrite Hc. f_equal. exact IH.
Qed.

Section GetSubstitutionFacts.
Variables (m : Z) (caps : Captures) (matched before after : JSString).
Local Abbreviation G := (GetSubstitution m caps matched before after).

Lemma GetSubstitution_unit c t : (c =? 36) = false -> G (c :: t) = c :: G t.
Proof. intros Hc. cbn [GetSubstitution]. rewrite Hc. reflexivity. Qed.

Lemma GetSubstitution_dollar d t :
  (d =? 36) = false -> (d =? 38) = false -> (d =? 96) = false ->
  (d =? 39) = false -> isDigit d = false ->
  G (36 :: d :: t) = 36 :: G (d :: t).
Proof.
  intros Hd Ha Hb Hq Hdig.
  change (G (36 :: d :: t))
    with (if d =? 36 then 36 :: G t
          else if d =? 38 then matched ++ G t
          else if d =? 96 then before ++ G t
          else if d =? 39 then after ++ G t
          else if isDigit d then
            match t with
            | d2 :: t'' =>
              if isDigit d2 then
                let index := 10 * (d - 48) + (d2 - 48) in
                if index <=? m then
                  (if 1 <=? index then capture_text caps index else [36; d; d2])
                    ++ G t''
                else one_digit_ref m caps d ++ G t
              else one_digit_ref m caps d ++ G t
            | [] => one_digit_ref m caps d
            end
          else 36 :: G (d :: t)).
  rewrite Hd, Ha, Hb, Hq, Hdig. reflexivity.
Qed.

Lemma GetSubstitution_digit d d2 t :
  isDigit d = true ->
  G (36 :: d :: d2 :: t)
  = if isDigit d2 then
      if 10 * (d - 48) + (d2 - 48) <=? m then
        (if 1 <=? 10 * (d - 48) + (d2 - 48)
         then capture_text caps (10 * (d - 48) + (d2 - 48))
         else [36; d; d2]) ++ G t
      else one_digit_ref m caps d ++ G (d2 :: t)
    else one_digit_ref m caps d ++ G (d2 :: t).
Proof.
  intros Hdig.
  assert (H36 : (d =? 36) = false /\ (d =? 38) = false /\ (d =? 96) = false
                /\ (d =? 39) = false).
  { unfold isDigit in Hdig. lia. }
  destruct H36 as (Hd & Ha & Hb & Hq).
  change (G (36 :: d :: d2 :: t))
    with (if d =? 36 then 36 :: G (d2 :: t)
          else if d =? 38 then matched ++ G (d2 :: t)
          else if d =? 96 then before ++ G (d2 :: t)
          else if d =? 39 then after ++ G (d2 :: t)
          else if isDigit d then
            if isDigit d2 then
              let index := 10 * (d - 48) + (d2 - 48) in
              if index <=? m then
                (if 1 <=? index then capture_text caps index else [36; d; d2])
                  ++ G t
              else one_digit_ref m caps d ++ G (d2 :: t)
            else one_digit_ref m caps d ++ G (d2 :: t)
          else 36 :: G (d :: d2 :: t)).
  rewrite Hd, Ha, Hb, Hq, Hdig. reflexivity.
Qed.

End GetSubstitutionFacts.

(** A text without replacement pattern, followed by a slash, is copied
    by the expansion. *)
Lemma GetSubstitution_safe caps matched before after rest : forall n p,
  (length p <= n)%nat ->
  dollar_safe p = true ->
  GetSubstitution 2 caps matched before after (p ++ 47 :: rest)
  = p ++ GetSubstitution 2 caps matched before after (47 :: rest).
Proof.
  induction n as [|n IH]; intros p Hlen Hsafe.
  { destruct p; [reflexivity|simpl in Hlen; lia]. }
  destruct p as [|c t]; [reflexivity|].
  cbn [length] in Hlen.
  cbn [dollar_safe] in Hsafe. apply andb_true_iff in Hsafe as [Hpat Ht].
  apply negb_true_iff in Hpat.
  assert (IHt : GetSubstitution 2 caps matched before after (t ++ 47 :: rest)
                = t ++ GetSubstitution 2 caps matched before after (47 :: rest))
    by (apply IH; [lia|exact Ht]).
  change ((c :: t) ++ 47 :: rest) with (c :: t ++ 47 :: rest).
  change ((c :: t) ++ GetSubstitution 2 caps matched before after (47 :: rest))
    with (c :: t ++ GetSubstitution 2 caps matched before after (47 :: rest)).
  destruct (Z.eqb_spec c 36) as [->|Hc].
  2:{ rewrite GetSubstitution_unit by (apply Z.eqb_neq; exact Hc).
      f_equal. exact IHt. }
  destruct t as [|d t'].
  { cbn [app]. rewrite GetSubstitution_dollar by reflexivity. reflexivity. }
  cbn [replacement_pattern_at] in Hpat. rewrite Z.eqb_refl in Hpat.
  cbn [andb] in Hpat.
  apply orb_false_iff in Hpat as [Hpat H0].
  apply orb_false_iff in Hpat as [Hpat H2].
  apply orb_false_iff in Hpat as [Hpat H1].
  apply orb_false_iff in Hpat as [Hpat Hq].
  apply orb_false_iff in Hpat as [Hpat Hb].
  apply orb_false_iff in Hpat as [Hd Ha].
  change ((d :: t') ++ 47 :: rest) with (d :: t' ++ 47 :: rest) in *.
  destruct (isDigit d) eqn:Hdig.
  2:{ rewrite GetSubstitution_dollar by assumption. f_equal. exact IHt. }
  assert (Href : one_digit_ref 2 caps d = [36; d]).
  { unfold one_digit_ref. unfold isDigit in Hdig.
    destruct (Z.leb_spec 1 (d - 48)); [|reflexivity].
    destruct (Z.leb_spec (d - 48) 2); [|reflexivity].
    apply Z.eqb_neq in H1, H2. lia. }
  rewrite GetSubstitution_unit in IHt by exact Hd.
  assert (Htail : GetSubstitution 2 caps matched before after (t' ++ 47 :: rest)
                  = t' ++ GetSubstitution 2 caps matched before after (47 :: rest)).
  { injection IHt as IHt. exact IHt. }
  destruct t' as [|d2 t''].
  { cbn [app]. rewrite GetSubstitution_digit by exact Hdig.
    change (isDigit 47) with false. cbv iota. rewrite Href. reflexivity. }
  change ((d2 :: t'') ++ 47 :: rest) with (d2 :: t'' ++ 47 :: rest) in *.
  rewrite GetSubstitution_digit by exact Hdig.
  destruct (isDigit d2) eqn:Hdig2.
  2:{ rewrite Href, Htail. reflexivity. }
  destruct (Z.leb_spec (10 * (d - 48) + (d2 - 48)) 2) as [Hidx|Hidx].
  2:{ rewrite Href, Htail. reflexivity. }
  unfold isDigit in Hdig, Hdig2.
  assert (Hzero : d = 48 /\ d2 = 48).
  { destruct (Z.eqb_spec d 48) as [->|Hne]; [|lia].
    cbn [andb] in H0. apply orb_false_iff in H0 as [H01 H02].
    apply Z.eqb_neq in H01, H02. lia. }
  destruct Hzero as [-> ->].
  change (1 <=? 10 * (48 - 48) + (48 - 48)) with false. cbv iota.
  cbn [app]. do 3 f_equal.
  apply IH; [cbn [length] in Hlen; lia|].
  cbn [dollar_safe] in Ht.
  apply andb_true_iff in Ht as [_ Ht].
  apply andb_true_iff in Ht as [_ Ht]. exact Ht.
Qed.

(** With a prefix that holds no replacement pattern, the template
    [url($1<prefix>/$2] expands to the first capture, the prefix and the
    second capture in their places; a digit at the head of the prefix is
    not read as part of [$1], there being two groups only. *)
Lemma GetSubstitution_css prefix ws next matched before after :
  dollar_safe prefix = true ->
  GetSubstitution 2 [(2%nat, [next]); (1%nat, ws)] matched before after
    (js "url($1" ++ prefix ++ js "/$2")
  = js "url(" ++ ws ++ prefix ++ [Chars.Slash; next].
Proof.
  intros Hp.
  change (js "url($1") with ([117; 114; 108; 40] ++ [36; 49]).
  change (js "/$2") with [47; 36; 50]. rewrite js_url.
  rewrite <- app_assoc.
  rewrite GetSubstitution_plain by (repeat constructor; lia).
  f_equal.
  assert (Htail : GetSubstitution 2 [(2%nat, [next]); (1%nat, ws)] matched
                    before after (prefix ++ [47; 36; 50])
                  = prefix ++ [Chars.Slash; next]).
  { rewrite (GetSubstitution_safe _ _ _ _ _ (length prefix))
      by (try lia; exact Hp).
    reflexivity. }
  cbn [app]. cbn [GetSubstitution]. rewrite Z.eqb_refl.
  change (49 =? 36) with false. change (49 =? 38) with false.
  change (49 =? 96) with false. change (49 =? 39) with false.
  change (isDigit 49) with true. cbv iota.
  change (one_digit_ref 2 [(2%nat, [next]); (1%nat, ws)] 49) with ws.
  destruct prefix as [|d2 p'].
  - cbn [app]. change (isDigit 47) with false. cbv iota.
    f_equal; try exact Htail.
  - cbn [app]. destruct (isDigit d2) eqn:Hd.
    + unfold isDigit in Hd. apply andb_true_iff in Hd as [Hlo _].
      apply Z.leb_le in Hlo.
      assert (Hidx : (10 * (49 - 48) + (d2 - 48) <=? 2) = false)
        by (apply Z.leb_gt; lia).
      cbv zeta. rewrite Hidx. f_equal; try exact Htail.
    + f_equal; try exact Htail.
Qed.

(** ** Global replacement *)

Section ReplaceFacts.
Variables (r : regex) (m : Z) (template : JSString).

(** Passing over the rest of a match. *)
Lemma replace_from_skip a : forall consumed prev x b,
  replace_from r m template consumed prev (a ++ x :: b) (S (length a))
  = replace_from r m template (consumed ++ a ++ [x]) (Some x) b 0.
Proof.
  induction a as [|y a IH]; intros consumed prev x b.
  - reflexivity.
  - cbn [app length replace_from]. rewrite IH.
    rewrite <- app_assoc. reflexivity.
Qed.

Lemma replace_from_cons consumed prev c t :
  replace_from r m template consumed prev (c :: t) 0 =
  match regex_exec_at r prev (c :: t) with
  | Some (rest', caps) =>
    substitute m template consumed (c :: t) rest' caps ++
    match (length (c :: t) - length rest')%nat with
    | O => c :: replace_from r m template (consumed ++ [c]) (Some c) t 0
    | S k => replace_from r m template (consumed ++ [c]) (Some c) t k
    end
  | None => c :: replace_from r m template (consumed ++ [c]) (Some c) t 0
  end.
Proof. reflexivity. Qed.

End ReplaceFacts.

(** The replacement done by [prefixCSSURLValues] is the direct scan. *)
Lemma replace_css_rewritten prefix :
  dollar_safe prefix = true ->
  forall n s, (length s <= n)%nat -> forall consumed prev,
  replace_from css_url_regex 2 (js "url($1" ++ prefix ++ js "/$2")
    consumed prev s 0
  = css_rewritten prefix prev s.
Proof.
  intros Hp. induction n as [|n IH]; intros s Hlen consumed prev.
  - destruct s; [|simpl in Hlen; lia].
    cbn [replace_from]. rewrite regex_exec_css_None by apply css_url_at_nil.
    rewrite css_rewritten_equation_1. reflexivity.
  - destruct s as [|c t].
    { cbn [replace_from]. rewrite regex_exec_css_None by apply css_url_at_nil.
      rewrite css_rewritten_equation_1. reflexivity. }
    destruct (css_url_at prev (c :: t)) as [k|] eqn:Hat.
    + destruct (css_url_at_Some _ _ _ Hat)
        as (ws & next & rest & Hs & Hk & Hrun & Hnext & Hw).
      rewrite <- Hk in Hrun.
      pose proof (regex_exec_css_Some prev ws next rest Hw Hrun Hnext) as Hexec.
      rewrite <- Hs in Hexec.
      rewrite replace_from_cons, Hexec. unfold substitute.
      rewrite GetSubstitution_css by assumption.
      rewrite Hs at 2. rewrite css_rewritten_occurrence by assumption.
      set (a := [114; 108; 40] ++ ws ++ [Chars.Slash]).
      assert (Ht : t = a ++ next :: rest).
      { rewrite js_url in Hs. cbn [app] in Hs. injection Hs as _ ->.
        subst a. rewrite <- !app_assoc. reflexivity. }
      replace (length (c :: t) - length rest)%nat with (S (S (length a)))
        by (rewrite Ht; cbn [length]; rewrite length_app; cbn [length]; lia).
      rewrite Ht, replace_from_skip, IH.
      * rewrite <- !app_assoc. reflexivity.
      * simpl in Hlen. rewrite Ht, length_app in Hlen. simpl in Hlen. lia.
    + rewrite css_rewritten_copy by assumption.
      rewrite replace_from_cons, regex_exec_css_None by assumption.
      f_equal. apply IH. simpl in Hlen. lia.
Qed.

(** ** ASCII values *)

Lemma ascii_is_byte l : Forall (fun b => 0 <= b < 128) l -> Forall is_byte l.
Proof.
  induction 1 as [|b l Hb _ IH]; constructor; [unfold is_byte; lia|exact IH].
Qed.

Lemma utf8_decode_ascii l :
  Forall (fun b => 0 <= b < 128) l -> utf8_decode l = l.
Proof.
  unfold utf8_decode. induction 1 as [|b l Hb _ IH]; [reflexivity|].
  cbn [utf8_decode_from utf8_idle u_needed]. unfold utf8_start.
  assert (Hle : (b <=? 0x7F) = true) by (apply Z.leb_le; lia).
  rewrite Hle. cbn [app]. f_equal. exact IH.
Qed.

Lemma str_ascii l : Forall (fun b => 0 <= b < 128) l -> str l = l.
Proof.
  intros H. unfold str. fold (low_bytes l).
  rewrite low_bytes_bytes by (apply ascii_is_byte; exact H).
  apply utf8_decode_ascii. exact H.
Qed.

(** Keeping the low bytes of a rewritten byte string is rewriting with the
    low bytes of the prefix. *)
Lemma low_bytes_css_rewritten prefix : forall n s, (length s <= n)%nat ->
  Forall is_byte s -> forall prev,
  low_bytes (css_rewritten prefix prev s)
  = css_rewritten (low_bytes prefix) prev s.
Proof.
  induction n as [|n IH]; intros s Hlen Hbytes prev.
  - destruct s; [|simpl in Hlen; lia].
    rewrite !css_rewritten_equation_1. reflexivity.
  - destruct s as [|c t]; [rewrite !css_rewritten_equation_1; reflexivity|].
    destruct (css_url_at prev (c :: t)) as [k|] eqn:Hat.
    + destruct (css_url_at_Some _ _ _ Hat)
        as (ws & next & rest & Hs & Hk & Hrun & Hnext & Hw).
      rewrite <- Hk in Hrun. rewrite Hs in *.
      rewrite !css_rewritten_occurrence by assumption.
      apply Forall_app in Hbytes as [Hurl Hbytes].
      apply Forall_app in Hbytes as [Hws Hbytes].
      inversion Hbytes as [|? ? Hslash Hbytes']; subst.
      inversion Hbytes' as [|? ? Hn Hrest]; subst.
      rewrite !low_bytes_app, IH.
      * rewrite (low_bytes_bytes (js "url(")), (low_bytes_bytes ws) by assumption.
        rewrite (low_bytes_bytes [Chars.Slash; next])
          by (constructor; [assumption|constructor; [assumption|constructor]]).
        reflexivity.
      * rewrite !length_app in Hlen. simpl in Hlen. lia.
      * assumption.
    + rewrite !css_rewritten_copy by assumption.
      inversion Hbytes as [|? ? Hc Ht]; subst.
      unfold low_bytes at 1. cbn [map]. fold (low_bytes (css_rewritten prefix (Some c) t)).
      rewrite land_255_byte by assumption. f_equal.
      apply IH; [simpl in Hlen; lia|assumption].
Qed.

(** C5, amended.  For a value and a prefix made of ASCII characters, the
    prefix holding none of the replacement patterns [$$], [$&], [$`],
    [$'], [$1], [$2], [$01] and [$02], [prefixCSSURLValues] writes the
    value with the prefix inserted before the slash of every occurrence,
    found from left to right without overlap, of [url(] not preceded by a
    letter, a digit or an underscore, followed by optional white space, a
    slash and one further unit that is not a slash; everything else is
    written unchanged, [url(//] included. *)
Theorem prefixCSSURLValues_css_url vars buffer value :
  buffer_ok buffer ->
  Forall (fun b => 0 <= b < 128) value ->
  attrValue vars = AV_array value ->
  Forall (fun u => 0 <= u < 128) (prefix vars) ->
  dollar_safe (prefix vars) = true ->
  exists buffer',
    prefixCSSURLValues vars buffer = Returns buffer'
    /\ written buffer'
       = written buffer ++ css_rewritten (prefix vars) None value.
Proof.
  intros Hok Hascii Hval Hpa Hp. unfold prefixCSSURLValues. rewrite Hval.
  eexists. split; [reflexivity|].
  destruct (writeChunk_string_written
              (replace css_url_regex 2
                 (js "url($1" ++ prefix vars ++ js "/$2") (str value))
              buffer Hok) as [Hw _].
  rewrite Hw. f_equal. unfold replace.
  rewrite str_ascii by assumption.
  rewrite (replace_css_rewritten (prefix vars) Hp (length value)) by lia.
  rewrite (low_bytes_css_rewritten _ (length value))
    by (try lia; apply ascii_is_byte; exact Hascii).
  rewrite low_bytes_bytes by (apply ascii_is_byte; exact Hpa).
  reflexivity.
Qed.

(** The scan decides the predicate of the doctype gate (the direction used
    to refute it on a given input). *)
Lemma html5_doctype_firstb_complete input :
  html5_doctype_first input -> html5_doctype_firstb input = true.
Proof.
  intros (ws & body & rest & -> & Hws & Hbody & Hlow).
  unfold html5_doctype_firstb.
  change ([Chars.Lt] ++ body ++ [Chars.Gt] ++ rest)
    with (Chars.Lt :: body ++ Chars.Gt :: rest).
  assert (Hskip : skip_whitespace (ws ++ Chars.Lt :: body ++ Chars.Gt :: rest)
                  = Chars.Lt :: body ++ Chars.Gt :: rest).
  { clear -Hws. induction Hws as [|b ws Hb _ IH]; [reflexivity|].
    cbn [app skip_whitespace]. rewrite Hb. exact IH. }
  rewrite Hskip, Z.eqb_refl. cbn [andb].
  assert (Hup : up_to_gt (body ++ Chars.Gt :: rest) = Some body).
  { clear -Hbody. induction Hbody as [|b body Hb _ IH]; [reflexivity|].
    cbn [app up_to_gt]. apply Z.eqb_neq in Hb. rewrite Hb, IH. reflexivity. }
  rewrite Hup. apply bool_decide_eq_true. exact Hlow.
Qed.

(** ** Instances of the theorems on concrete values *)

Lemma prefixCSSURLValues_css_url_witness :
  exists buffer',
    prefixCSSURLValues
      (vars_with (js "/p$") (js "a:url(/x) b:url(//c) xurl(/d) e:url( /f)"))
      (WriteBuffer_new 4096)
    = Returns buffer'
    /\ written buffer'
       = written (WriteBuffer_new 4096)
         ++ css_rewritten
              (prefix (vars_with (js "/p$")
                 (js "a:url(/x) b:url(//c) xurl(/d) e:url( /f)")))
              None (js "a:url(/x) b:url(//c) xurl(/d) e:url( /f)").
Proof.
  apply (prefixCSSURLValues_css_url
           (vars_with (js "/p$") (js "a:url(/x) b:url(//c) xurl(/d) e:url( /f)"))
           (WriteBuffer_new 4096)
           (js "a:url(/x) b:url(//c) xurl(/d) e:url( /f)")).
  - apply buffer_ok_new. lia.
  - apply (bool_decide_unpack _). vm_compute. exact I.
  - reflexivity.
  - apply (bool_decide_unpack _). vm_compute. exact I.
  - vm_compute. reflexivity.
Defined.

Lemma doctype_gating_witness :
  HTMLTransformer.output (js "/base")
    [doc "<!DOCTYPE "; doc "html5><a href='/x'>"]
  = Returns (concat [doc "<!DOCTYPE "; doc "html5><a href='/x'>"]).
Proof.
  apply (doctype_gating (js "/base")
           [doc "<!DOCTYPE "; doc "html5><a href='/x'>"]).
  - apply (bool_decide_unpack _). vm_compute. exact I.
  - intros H. apply html5_doctype_firstb_complete in H.
    vm_compute in H. discriminate H.
Defined.

(** ** Where the code departs from the description *)

(** C5 as stated fails: [url(] preceded by a letter is no match for the
    pattern of the code, so nothing is inserted there, while the claim asks
    for the prefix at every occurrence of [url(], white space and a single
    slash. *)
Lemma css_url_claim_counterexample :
  exists buffer',
    prefixCSSURLValues (vars_with (js "/p") (js "xurl(/a)")) (WriteBuffer_new 4096)
    = Returns buffer'
    /\ written buffer'
       <> written (WriteBuffer_new 4096)
          ++ css_rewritten_claimed (js "/p") (js "xurl(/a)").
Proof.
  eexists. split; [reflexivity|]. vm_compute. discriminate.
Qed.

(** C3.  The single-URL strategy does not emit a prefix that holds a
    character outside ASCII: [writeChunk] stores the low byte of each unit
    of a string.  With the prefix made of a slash and a euro sign (the
    units 2F and 20AC) and the value [/x], which begins with one slash and
    not two, the bytes written are 2F AC 2F 78: the same as for the prefix
    made of the units 2F and AC, and not bytes that decode to the prefix
    followed by the value.  A whole document shows the same. *)
Theorem prefixValue_prefix_low_bytes :
  (exists buffer',
     prefixValue (vars_with [0x2F; 0x20AC] (js "/x")) (WriteBuffer_new 4096)
     = Returns buffer'
     /\ single_leading_slash (js "/x") = true
     /\ written buffer' = [0x2F; 0xAC; 0x2F; 0x78]
     /\ utf8_decode (written buffer') <> [0x2F; 0x20AC] ++ js "/x"
     /\ prefixValue (vars_with [0x2F; 0xAC] (js "/x")) (WriteBuffer_new 4096)
        = Returns buffer')
  /\ HTMLTransformer.output [0x2F; 0x20AC] [doc "<!DOCTYPE html><a href='/x'>"]
     = Returns (doc "<!DOCTYPE html><a href='" ++ [0x2F; 0xAC]
                ++ doc "/x'>").
Proof.
  split.
  - eexists. split; [reflexivity|]. split; [reflexivity|].
    split; [vm_compute; reflexivity|].
    split; [vm_compute; discriminate|]. vm_compute. reflexivity.
  - vm_compute. reflexivity.
Qed.

(** C1.  With the empty prefix the output is not always the input: a
    [srcset] value is split, trimmed and joined again with a comma and a
    space, and white space between [=] and a value is never written. *)
Theorem empty_prefix_not_identity :
  HTMLTransformer.output (js "") [doc "<!DOCTYPE html><img srcset='a,b'>"]
  = Returns (doc "<!DOCTYPE html><img srcset='a, b'>")
  /\ HTMLTransformer.output (js "") [doc "<!DOCTYPE html><a href= 'x'>"]
     = Returns (doc "<!DOCTYPE html><a href='x'>").
Proof. split; vm_compute; reflexivity. Qed.

(** C2.  Processing a chunk can raise: an attribute named [__proto__]
    resolves, through the prototype of the attribute table, to an object
    that is not callable, and the call of [vars.writeAttr] at the end of
    the value is a TypeError.  [__defineGetter__] raises as well. *)
Theorem inherited_attribute_raises :
  HTMLTransformer.output (js "/base") [doc "<!DOCTYPE html><a __proto__='x'>"]
  = Throws TypeError
  /\ HTMLTransformer.output (js "")
       [doc "<!DOCTYPE html>"; doc "<p __defineGetter__=x>"]
     = Throws TypeError.
Proof. split; vm_compute; reflexivity. Qed.

(** C4.  The URL-list strategy decodes the value as UTF-8 and writes the
    low byte of each unit of the result: the two bytes of a non-ASCII
    character come out as one other byte, where splitting, trimming and
    joining the bytes of the value leaves them as they are. *)
Theorem srcset_non_ascii_candidate :
  exists buffer',
    prefixSrcSetValues (vars_with (js "/p") [0xC3; 0xA9; 0x2E; 0x70; 0x6E; 0x67])
      (WriteBuffer_new 4096)
    = Returns buffer'
    /\ written buffer' = [0xE9; 0x2E; 0x70; 0x6E; 0x67]
    /\ srcset_rewritten (js "/p") [0xC3; 0xA9; 0x2E; 0x70; 0x6E; 0x67]
       = [0xC3; 0xA9; 0x2E; 0x70; 0x6E; 0x67].
Proof. eexists. repeat split; vm_compute; reflexivity. Qed.

(** C7.  The body of a script is not always copied: an opening tag that
    ends right after an attribute name ([<script async>]) never reaches
    the end-of-tag check, so its body is read as attributes; and the name
    recorded at the end of one script block is still there in the next one,
    which therefore ends at its first unit that is neither [<], a slash nor
    a name character. *)
Theorem script_body_rewritten :
  HTMLTransformer.output (js "/base")
    [doc "<!DOCTYPE html><script async>src='/x'</script>"]
  = Returns (doc "<!DOCTYPE html><script async>src='/base/x'</script>")
  /\ HTMLTransformer.output (js "/base")
       [doc "<!DOCTYPE html><script>a</script><script> x='<a href=/y>' </script>"]
     = Returns
         (doc "<!DOCTYPE html><script>a</script><script> x='<a href=/base/y>' </script>").
Proof. split; vm_compute; reflexivity. Qed.

(** C8.  Bytes from 0x80 on are not preserved inside a value rewritten by
    the URL-list or the CSS-URL strategy: with the empty prefix, the two
    bytes C3 A9 of a value come out as the single byte E9. *)
Theorem non_ascii_bytes_not_preserved :
  HTMLTransformer.output (js "")
    [doc "<!DOCTYPE html><img srcset='" ++ [0xC3; 0xA9] ++ doc "'>"]
  = Returns (doc "<!DOCTYPE html><img srcset='" ++ [0xE9] ++ doc "'>")
  /\ HTMLTransformer.output (js "")
       [doc "<!DOCTYPE html><p style='" ++ [0xC3; 0xA9] ++ doc "'>"]
     = Returns (doc "<!DOCTYPE html><p style='" ++ [0xE9] ++ doc "'>").
Proof. split; vm_compute; reflexivity. Qed.

(** C9.  [_flush] never invokes the callback it is given, so the end of
    the transformation is not signalled; it does write the value left open
    as it stands and pushes everything written downstream. *)
Theorem _flush_never_signals_completion self :
  HTMLTransformer.callbacks (HTMLTransformer._flush self) = 0%nat
  /\ HTMLTransformer.pushed (HTMLTransformer.this (HTMLTransformer._flush self))
     = written match attrValue (HTMLTransformer._vars self) with
               | AV_array a =>
                 writeChunk (CArray a) (HTMLTransformer._buffer self)
               | _ => HTMLTransformer._buffer self
               end.
Proof. split; [reflexivity|apply _flush_pushed]. Qed.

(** C10.  An attribute name that is not lower-case does not always resolve
    to the passthrough strategy: [toString] resolves to the method every
    attribute table inherits, which writes nothing, and the value is lost. *)
Theorem inherited_attribute_value_dropped :
  HTMLTransformer.output (js "/base") [doc "<!DOCTYPE html><a toString='/x'>"]
  = Returns (doc "<!DOCTYPE html><a toString=''>").
Proof. vm_compute. reflexivity. Qed.

(** ** What does hold of the state table and of the attribute lookup *)

Lemma RewriteTags_wildcard :
  RewriteTags_get (js "*") = Some (ATable [("style"%string, F_prefixCSSURLValues)]).
Proof. reflexivity. Qed.

(** Every state function that returns names a next state: the wildcard
    entry makes [read-tag-name] find a table for every tag name. *)
Lemma SM_next_defined st ch buffer vars next buffer' vars' :
  SM st ch buffer vars = Returns (next, buffer', vars') -> next <> None.
Proof.
  intros H.
  destruct st; unfold SM in H;
    unfold SM_find_doctype, SM_read_doctype, SM_writethrough,
      SM_writethrough_to_end, SM_read_tag_name, finish_tag_name,
      SM_find_attr_name_start, SM_read_attr_name, SM_find_attr_equals,
      SM_find_attr_value_start, SM_find_attr_value_end_quote,
      SM_find_attr_value_end_no_quote, SM_find_tag_end, SM_find_script_end,
      SM_find_comment_end, write_attr_and_char, push_attrValue,
      mbind, Outcome_bind in H;
    try rewrite RewriteTags_wildcard in H;
    repeat match type of H with
           | context [match ?x with _ => _ end] => destruct x eqn:?
           end;
    try discriminate H; try (injection H as <- _ _; discriminate).
  all: match goal with
       | Hq : match RewriteTags_get ?n with _ => _ end = None |- _ =>
         destruct (RewriteTags_get n); discriminate Hq
       end.
Qed.

(** What a state function raises is a TypeError, or the SyntaxError of
    [Function]. *)
Lemma call_writeAttr_throws w vars buffer e :
  call_writeAttr w vars buffer = Throws e -> e = TypeError \/ e = SyntaxError.
Proof.
  intros H.
  destruct w as [[]|[]| |[]|[]| | |];
    cbn [call_writeAttr call_static apply_rewrite mbind Outcome_bind] in H;
    unfold writeValue, prefixValue, prefixSrcSetValues, prefixCSSURLValues in H;
    repeat match type of H with
           | context [match ?x with _ => _ end] => destruct x eqn:?
           end;
    cbn [mbind Outcome_bind] in H;
    try discriminate H; injection H as <-; auto.
Qed.

Lemma write_attr_and_char_throws ch buffer vars e :
  write_attr_and_char ch buffer vars = Throws e ->
  e = TypeError \/ e = SyntaxError.
Proof.
  unfold write_attr_and_char, mbind, Outcome_bind. intros H.
  destruct (writeAttr (fields vars)) as [w|];
    [|injection H as <-; auto].
  destruct (call_writeAttr w vars buffer) as [[b v]|e1] eqn:Hcall;
    try discriminate.
  injection H as <-. eapply call_writeAttr_throws. exact Hcall.
Qed.

Lemma push_attrValue_throws ch vars e :
  push_attrValue ch vars = Throws e -> e = TypeError.
Proof.
  unfold push_attrValue. destruct (attrValue (fields vars)); congruence.
Qed.

Lemma SM_throws st ch buffer vars e :
  SM st ch buffer vars = Throws e -> e = TypeError \/ e = SyntaxError.
Proof.
  intros H.
  destruct st; unfold SM in H;
    unfold SM_find_doctype, SM_read_doctype, SM_writethrough,
      SM_writethrough_to_end, SM_read_tag_name, finish_tag_name,
      SM_find_attr_name_start, SM_read_attr_name, SM_find_attr_equals,
      SM_find_attr_value_start, SM_find_attr_value_end_quote,
      SM_find_attr_value_end_no_quote, SM_find_tag_end, SM_find_script_end,
      SM_find_comment_end, mbind, Outcome_bind in H;
    repeat match type of H with
           | context [match ?x with _ => _ end] => destruct x eqn:?
           end;
    try discriminate H;
    injection H as <-; auto;
    first [ eapply write_attr_and_char_throws; eassumption
          | left; eapply push_attrValue_throws; eassumption ].
Qed.

(** The error [Bad parser state transition] is never the one raised. *)
Lemma no_bad_transition chunk : forall st buffer vars prev,
  HTMLTransformer.transform_loop chunk st buffer vars
  <> Throws (BadParserStateTransition prev).
Proof.
  induction chunk as [|ch rest IH]; intros st buffer vars prev; [discriminate|].
  cbn [HTMLTransformer.transform_loop]. unfold mbind, Outcome_bind.
  destruct (SM st ch buffer vars) as [[[next buffer'] vars']|e] eqn:Hstep;
    try discriminate.
  2:{ apply SM_throws in Hstep as [->| ->]; discriminate. }
  destruct next as [st'|].
  - apply IH.
  - exfalso. apply (SM_next_defined _ _ _ _ _ _ _ Hstep). reflexivity.
Qed.

Lemma own_property_None {V} name (o : list (string * V)) :
  Forall (fun kv => js (fst kv) <> name) o -> own_property name o = None.
Proof.
  induction 1 as [|[k v] o Hk _ IH]; [reflexivity|].
  cbn [own_property]. unfold str_eqb.
  rewrite bool_decide_eq_false_2 by exact Hk. exact IH.
Qed.

(** Attribute names are looked up as written: in every table of
    [RewriteTags], a name with an upper-case letter that is not the name of
    a member of Object.prototype resolves to nothing, hence to
    [writeValue]. *)
Lemma Attrs_get_upper_case tag table name :
  In (tag, table) RewriteTags ->
  no_upper_case name = false ->
  ObjectPrototype_member name = None ->
  Attrs_get (ATable table) name = None.
Proof.
  intros Hin Hup Hproto. unfold Attrs_get. rewrite Hproto.
  rewrite own_property_None; [reflexivity|].
  assert (Hkeys : Forall (fun kv => no_upper_case (js (fst kv)) = true) table).
  { unfold RewriteTags in Hin. cbn [In] in Hin.
    repeat (destruct Hin as [Hin|Hin];
            [injection Hin as _ <-; repeat constructor|]).
    contradiction. }
  eapply Forall_impl; [exact Hkeys|].
  intros [k v] Hk Heq. cbn [fst] in *. congruence.
Qed.


(** A [$] in the prefix is read as part of the replacement template: with
    the prefix [/p$&] the matched text is inserted after [/p]. *)
Lemma css_url_dollar_in_prefix :
  exists buffer',
    prefixCSSURLValues (vars_with (js "/p$&") (js "url(/x)")) (WriteBuffer_new 4096)
    = Returns buffer'
    /\ written buffer' = js "url(/purl(/x/x)".
Proof. eexists. split; vm_compute; reflexivity. Qed.

(** ** The documented examples *)

Example absolute_path_rewriting :
  HTMLTransformer.output (js "/base") [doc "<!DOCTYPE html><a href='/x'>"]
  = Returns (doc "<!DOCTYPE html><a href='/base/x'>").
Proof. vm_compute. reflexivity. Qed.

Example protocol_relative_exclusion :
  HTMLTransformer.output (js "/base")
    [doc "<!DOCTYPE html>"; doc "<img src='//cdn.example.com/x.png'>"]
  = Returns (doc "<!DOCTYPE html><img src='//cdn.example.com/x.png'>").
Proof. vm_compute. reflexivity. Qed.

Example srcset_rewriting :
  HTMLTransformer.output (js "/p")
    [doc "<!DOCTYPE html><img srcset='/a.png 1x, /b.png 2x'>"]
  = Returns (doc "<!DOCTYPE html><img srcset='/p/a.png 1x, /p/b.png 2x'>").
Proof. vm_compute. reflexivity. Qed.

Example css_url_rewriting :
  HTMLTransformer.output (js "/p/")
    [doc "<!DOCTYPE html><p style='background:url(/img/x.png) url(//cdn/x.png)'>"]
  = Returns
      (doc "<!DOCTYPE html><p style='background:url(/p/img/x.png) url(//cdn/x.png)'>").
Proof. vm_compute. reflexivity. Qed.

Example comment_immunity :
  HTMLTransformer.output (js "/p")
    [doc "<!DOCTYPE html><!-- <a href='/x'> --><a href='/y'>"]
  = Returns (doc "<!DOCTYPE html><!-- <a href='/x'> --><a href='/p/y'>").
Proof. vm_compute. reflexivity. Qed.

Example script_body_immunity :
  HTMLTransformer.output (js "/p")
    [doc "<!DOCTYPE html><script>x='<a href=/y>'</SCRIPT></script><a href=/z>"]
  = Returns
      (doc "<!DOCTYPE html><script>x='<a href=/y>'</SCRIPT></script><a href=/p/z>").
Proof. vm_compute. reflexivity. Qed.

Example unterminated_value_flushed :
  HTMLTransformer.output (js "/p") [doc "<!DOCTYPE html><a href='/x"]
  = Returns (doc "<!DOCTYPE html><a href='/x").
Proof. vm_compute. reflexivity. Qed.


(** * Further properties of the transformer *)

(** ** The buffer is only ever appended to *)

Lemma write_units_app a b wb :
  write_units (a ++ b) wb = write_units b (write_units a wb).
Proof. apply fold_left_app. Qed.

Lemma apply_rewrite_appends f vars buf buf' :
  apply_rewrite f vars buf = Returns buf' ->
  exists l, buf' = write_units l buf.
Proof.
  destruct f; cbn [apply_rewrite];
    unfold writeValue, prefixValue, prefixSrcSetValues, prefixCSSURLValues,
      writeChunk;
    intros H;
    repeat match type of H with
           | context [match ?x with _ => _ end] => destruct x eqn:?
           end;
    try discriminate H; injection H as <-;
    try (exists []; reflexivity);
    try (eexists; reflexivity).
  eexists (_ ++ _). rewrite write_units_app. reflexivity.
Qed.

Lemma call_writeAttr_appends w vars buf buf' vars' :
  call_writeAttr w vars buf = Returns (buf', vars') ->
  exists l, buf' = write_units l buf.
Proof.
  intros H. destruct w as [f|m| |s|fm| | |];
    cbn [call_writeAttr mbind Outcome_bind] in H.
  - destruct (apply_rewrite f (fields vars) buf) as [b|] eqn:Hf;
      cbn [mbind Outcome_bind] in H; [|discriminate H].
    injection H as <- _. exact (apply_rewrite_appends _ _ _ _ Hf).
  - destruct m; try discriminate H; injection H as <- _; exists [];
      reflexivity.
  - discriminate H.
  - unfold mbind, Outcome_bind in H.
    destruct (call_static s vars); [|discriminate H].
    injection H as <- _. exists []. reflexivity.
  - destruct fm; discriminate H.
  - injection H as <- _. exists []. reflexivity.
  - discriminate H.
  - discriminate H.
Qed.

Lemma write_attr_and_char_appends ch buf vars buf' vars' :
  write_attr_and_char ch buf vars = Returns (buf', vars') ->
  exists l, buf' = write_units l buf.
Proof.
  unfold write_attr_and_char, mbind, Outcome_bind. intros H.
  destruct (writeAttr (fields vars)) as [w|]; [|discriminate].
  destruct (call_writeAttr w vars buf) as [[b v]|] eqn:Hcall; try discriminate.
  injection H as <- _.
  destruct (call_writeAttr_appends _ _ _ _ _ Hcall) as [l ->].
  exists (l ++ [ch]). rewrite write_units_app. reflexivity.
Qed.

Ltac unfold_SM H :=
  unfold SM in H;
  unfold SM_find_doctype, SM_read_doctype, SM_writethrough,
    SM_writethrough_to_end, SM_read_tag_name, finish_tag_name,
    SM_find_attr_name_start, SM_read_attr_name, SM_find_attr_equals,
    SM_find_attr_value_start, SM_find_attr_value_end_quote,
    SM_find_attr_value_end_no_quote, SM_find_tag_end, SM_find_script_end,
    SM_find_comment_end, mbind, Outcome_bind in H.

Ltac destruct_matches H :=
  repeat match type of H with
         | context [match ?x with _ => _ end] => destruct x eqn:?
         end.

Lemma SM_appends st ch buf vars next buf' vars' :
  SM st ch buf vars = Returns (next, buf', vars') ->
  exists l, buf' = write_units l buf.
Proof.
  intros H. destruct st; unfold_SM H; destruct_matches H;
    try discriminate H; injection H as _ <- _;
    try (exists [ch]; reflexivity);
    try (exists []; reflexivity);
    match goal with
    | Hw : write_attr_and_char _ _ _ = Returns _ |- _ =>
      apply write_attr_and_char_appends in Hw; exact Hw
    end.
Qed.

Lemma transform_loop_appends chunk : forall st buf vars st' buf' vars',
  HTMLTransformer.transform_loop chunk st buf vars = Returns (st', buf', vars') ->
  exists l, buf' = write_units l buf.
Proof.
  induction chunk as [|ch rest IH]; intros st buf vars st' buf' vars' H.
  - injection H as _ <- _. exists []. reflexivity.
  - cbn [HTMLTransformer.transform_loop] in H. unfold mbind, Outcome_bind in H.
    destruct (SM st ch buf vars) as [[[next b1] v1]|] eqn:Hstep;
      try discriminate.
    destruct next as [st1|]; [|discriminate].
    destruct (SM_appends _ _ _ _ _ _ _ Hstep) as [l1 ->].
    destruct (IH _ _ _ _ _ _ H) as [l2 ->].
    exists (l1 ++ l2). rewrite write_units_app. reflexivity.
Qed.

Lemma flush_outs_prefix wb : _outs wb `prefix_of` _outs (flush wb).
Proof.
  unfold flush. cbn [_outs]. destruct (0 <? _offset wb)%nat.
  - apply prefix_app_r. reflexivity.
  - reflexivity.
Qed.

Lemma writeChar_outs_prefix ch wb : _outs wb `prefix_of` _outs (writeChar ch wb).
Proof.
  unfold writeChar. cbn [_outs].
  destruct (length (_buffer wb) <=? _offset wb)%nat.
  - apply flush_outs_prefix.
  - reflexivity.
Qed.

Lemma write_units_outs_prefix l : forall wb,
  _outs wb `prefix_of` _outs (write_units l wb).
Proof.
  induction l as [|u l IH]; intros wb; [reflexivity|].
  cbn [write_units fold_left]. etransitivity; [apply (writeChar_outs_prefix u)|].
  apply IH.
Qed.

(** What a whole run returns, in terms of the machine run on the
    concatenated input. *)
Lemma run_returns prefix chunks c :
  HTMLTransformer.run prefix chunks = Returns c ->
  exists st buf vars,
    HTMLTransformer.transform_loop (concat chunks) find_doctype
      (WriteBuffer_new 4096) (HTMLTransformer._vars (HTMLTransformer.new prefix))
    = Returns (st, buf, vars)
    /\ c = HTMLTransformer._flush
             {| HTMLTransformer._vars := vars; HTMLTransformer._state := st;
                HTMLTransformer._buffer := buf |}.
Proof.
  unfold HTMLTransformer.run. rewrite write_all_concat.
  change (HTMLTransformer._state (HTMLTransformer.new prefix)) with find_doctype.
  change (HTMLTransformer._buffer (HTMLTransformer.new prefix))
    with (WriteBuffer_new 4096).
  unfold mbind, Outcome_bind.
  destruct (HTMLTransformer.transform_loop _ _ _ _) as [[[st buf] vars]|];
    try discriminate.
  intros H. injection H as <-. eauto.
Qed.

Lemma writeChar_chunks_full cap ch wb :
  (0 < cap)%nat -> chunks_full cap wb -> chunks_full cap (writeChar ch wb).
Proof.
  intros Hcap (Hlen & Hoff & Hall). unfold writeChar.
  destruct (length (_buffer wb) <=? _offset wb)%nat eqn:Hfull.
  - apply Nat.leb_le in Hfull.
    unfold chunks_full, flush. cbn [_buffer _offset _outs].
    rewrite length_insert. unfold Buffer_alloc. rewrite repeat_length.
    split; [exact Hlen|]. split; [lia|].
    replace (0 <? _offset wb)%nat with true by (symmetry; apply Nat.ltb_lt; lia).
    apply Forall_app. split; [exact Hall|].
    constructor; [|constructor]. rewrite length_take. lia.
  - apply Nat.leb_gt in Hfull.
    unfold chunks_full. cbn [_buffer _offset _outs].
    rewrite length_insert. split; [exact Hlen|]. split; [lia|exact Hall].
Qed.

Lemma write_units_chunks_full cap l : forall wb,
  (0 < cap)%nat -> chunks_full cap wb -> chunks_full cap (write_units l wb).
Proof.
  induction l as [|u l IH]; intros wb Hcap Hok; [exact Hok|].
  cbn [write_units fold_left]. apply IH; [exact Hcap|].
  apply writeChar_chunks_full; assumption.
Qed.

Lemma chunks_full_new cap : chunks_full cap (WriteBuffer_new cap).
Proof.
  unfold chunks_full, WriteBuffer_new, Buffer_alloc. cbn [_buffer _offset _outs].
  rewrite repeat_length. repeat split; [lia|constructor].
Qed.

(** X1.  The buffer is flushed only when it is full or at the end: of the
    chunks the transformer has pushed downstream at the end of a run, all
    but the last hold 4096 bytes, the size of its buffer, and the last
    holds at least one byte and at most 4096. *)
Theorem pushed_chunks_bounded prefix chunks c :
  HTMLTransformer.run prefix chunks = Returns c ->
  exists full last,
    _outs (HTMLTransformer._buffer (HTMLTransformer.this c)) = full ++ last
    /\ Forall (fun chunk => length chunk = 4096%nat) full
    /\ (length last <= 1)%nat
    /\ Forall (fun chunk => (0 < length chunk <= 4096)%nat) last.
Proof.
  intros Hrun.
  destruct (run_returns _ _ _ Hrun) as (st & buf & vars & Hloop & ->).
  destruct (transform_loop_appends _ _ _ _ _ _ _ Hloop) as [l ->].
  pose proof (write_units_chunks_full 4096 l (WriteBuffer_new 4096)
                ltac:(lia) (chunks_full_new 4096)) as Hok.
  unfold HTMLTransformer._flush.
  cbn [HTMLTransformer.this HTMLTransformer._buffer HTMLTransformer._vars].
  match goal with
  | |- context [flush ?b] =>
    assert (Hb : chunks_full 4096 b)
      by (destruct (attrValue vars) as [| |a]; try exact Hok;
          apply (write_units_chunks_full 4096 a); [lia|exact Hok]);
      destruct Hb as (Hlen & Hoff & Hall); exists (_outs b)
  end.
  unfold flush. cbn [_outs].
  destruct (0 <? _offset _)%nat eqn:Hpos.
  - eexists. split; [reflexivity|]. split; [exact Hall|].
    split; [cbn [length]; lia|].
    apply Nat.ltb_lt in Hpos.
    constructor; [|constructor]. rewrite length_take. lia.
  - exists []. split; [rewrite app_nil_r; reflexivity|].
    split; [exact Hall|]. split; [cbn [length]; lia|constructor].
Qed.

Lemma pushed_chunks_bounded_witness :
  match HTMLTransformer.run (js "/p") [doc "<!DOCTYPE html>"; doc "<a href='/x'>"] with
  | Returns c =>
    exists full last,
      _outs (HTMLTransformer._buffer (HTMLTransformer.this c)) = full ++ last
      /\ Forall (fun chunk => length chunk = 4096%nat) full
      /\ (length last <= 1)%nat
      /\ Forall (fun chunk => (0 < length chunk <= 4096)%nat) last
  | _ => False
  end.
Proof.
  destruct (HTMLTransformer.run (js "/p")
              [doc "<!DOCTYPE html>"; doc "<a href='/x'>"]) as [c|] eqn:Hrun.
  - exact (pushed_chunks_bounded _ _ _ Hrun).
  - vm_compute in Hrun. discriminate Hrun.
Defined.

(** X2.  A call of [_transform] only adds to the output: the chunks pushed
    before the call are the first chunks pushed after it, and the bytes
    written before it are the first bytes written after it. *)
Theorem _transform_appends self chunk c :
  buffer_ok (HTMLTransformer._buffer self) ->
  HTMLTransformer._transform self chunk = Returns c ->
  _outs (HTMLTransformer._buffer self)
    `prefix_of` _outs (HTMLTransformer._buffer (HTMLTransformer.this c))
  /\ written (HTMLTransformer._buffer self)
       `prefix_of` written (HTMLTransformer._buffer (HTMLTransformer.this c)).
Proof.
  intros Hok H. unfold HTMLTransformer._transform, mbind, Outcome_bind in H.
  destruct (HTMLTransformer.transform_loop _ _ _ _) as [[[st buf] vars]|]
    eqn:Hloop; try discriminate.
  injection H as <-. cbn [HTMLTransformer.this HTMLTransformer._buffer].
  destruct (transform_loop_appends _ _ _ _ _ _ _ Hloop) as [l ->].
  split; [apply write_units_outs_prefix|].
  destruct (write_units_written l _ Hok) as [Hw _].
  unfold write_units. rewrite Hw. apply prefix_app_r. reflexivity.
Qed.

Lemma _transform_appends_witness :
  match HTMLTransformer._transform (HTMLTransformer.new (js "/p"))
          (doc "<!DOCTYPE html><a href='/x'>") with
  | Returns c =>
    _outs (HTMLTransformer._buffer (HTMLTransformer.new (js "/p")))
      `prefix_of` _outs (HTMLTransformer._buffer (HTMLTransformer.this c))
    /\ written (HTMLTransformer._buffer (HTMLTransformer.new (js "/p")))
         `prefix_of` written (HTMLTransformer._buffer (HTMLTransformer.this c))
  | _ => False
  end.
Proof.
  destruct (HTMLTransformer._transform (HTMLTransformer.new (js "/p"))
              (doc "<!DOCTYPE html><a href='/x'>")) as [c|] eqn:H.
  - apply (_transform_appends (HTMLTransformer.new (js "/p"))
             (doc "<!DOCTYPE html><a href='/x'>") c); [|exact H].
    apply buffer_ok_new. lia.
  - vm_compute in H. discriminate H.
Defined.

(** X3.  How the input is cut into chunks does not matter: a run on any
    chunking ends as the run on the whole input given as one chunk, with
    the same chunks pushed, the same context and the same outcome. *)
Theorem run_chunking prefix chunks :
  HTMLTransformer.run prefix chunks = HTMLTransformer.run prefix [concat chunks].
Proof.
  unfold HTMLTransformer.run. rewrite !write_all_concat.
  cbn [concat]. rewrite app_nil_r. reflexivity.
Qed.

(** X4.  The error [Bad parser state transition] of [_transform] is
    unreachable: no run raises it, whatever the input. *)
Theorem bad_transition_unreachable prefix chunks prev :
  HTMLTransformer.run prefix chunks <> Throws (BadParserStateTransition prev).
Proof.
  unfold HTMLTransformer.run. rewrite write_all_concat.
  unfold mbind, Outcome_bind.
  destruct (HTMLTransformer.transform_loop _ _ _ _) as [[[st buf] vars]|e]
    eqn:Hloop; try discriminate.
  intros H. injection H as ->.
  exact (no_bad_transition _ _ _ _ _ Hloop).
Qed.


(** ** The context stays consistent with the state *)

Lemma endOfTagCheck_cases ch vars k :
  endOfTagCheck ch vars k = writethrough
  \/ endOfTagCheck ch vars k = find_script_end
  \/ endOfTagCheck ch vars k = k.
Proof.
  unfold endOfTagCheck.
  destruct (ch =? Chars.Slash); [auto|].
  destruct (ch =? Chars.Gt); [|auto].
  destruct (tagName_is "script" vars); auto.
Qed.

(** *** What a call of [vars.writeAttr] can do to the context *)

Lemma call_static_returns s c c' :
  call_static s c = Returns c' ->
  fields c' = fields c
  /\ (integrity c' = Extensible -> integrity c = Extensible).
Proof.
  destruct c as [v i bf bp].
  destruct s, i; cbn; try destruct bf; try destruct bp; cbn;
    intros H; try discriminate H; injection H as <-; cbn;
    (split; [reflexivity|intros Hx; first [discriminate Hx|reflexivity]]).
Qed.

Lemma call_writeAttr_returns w c buf buf' c' :
  call_writeAttr w c buf = Returns (buf', c') ->
  fields c' = fields c
  /\ (integrity c' = Extensible -> integrity c = Extensible).
Proof.
  intros H. destruct w as [f|m| |s|fm| | |];
    cbn [call_writeAttr mbind Outcome_bind] in H.
  - destruct (apply_rewrite f (fields c) buf);
      cbn [mbind Outcome_bind] in H; [|discriminate H].
    injection H as _ <-. auto.
  - destruct m; try discriminate H; injection H as _ <-; auto.
  - discriminate H.
  - unfold mbind, Outcome_bind in H.
    destruct (call_static s c) as [c1|] eqn:Hs; [|discriminate H].
    injection H as _ <-. exact (call_static_returns _ _ _ Hs).
  - destruct fm; discriminate H.
  - injection H as _ <-. auto.
  - discriminate H.
  - discriminate H.
Qed.

Lemma assign_integrity p u c : integrity (assign p u c) = integrity c.
Proof. unfold assign. destruct (integrity c) eqn:Hi, p; cbn; auto. Qed.

Lemma delete_integrity u c : integrity (delete u c) = integrity c.
Proof. unfold delete. destruct (integrity c) eqn:Hi; cbn; auto. Qed.

Lemma assign_extensible p u c :
  integrity c = Extensible -> fields (assign p u c) = u (fields c).
Proof. unfold assign. intros ->. reflexivity. Qed.

Lemma delete_extensible u c :
  integrity c = Extensible -> fields (delete u c) = u (fields c).
Proof. unfold delete. intros ->. reflexivity. Qed.

Lemma write_attr_and_char_returns ch buf c buf' c' :
  write_attr_and_char ch buf c = Returns (buf', c') ->
  integrity c' = Extensible ->
  integrity c = Extensible
  /\ fields c' = set_attrValue AV_false (fields c).
Proof.
  unfold write_attr_and_char, mbind, Outcome_bind. intros H Hext.
  destruct (writeAttr (fields c)) as [w|]; [|discriminate].
  destruct (call_writeAttr w c buf) as [[b c1]|] eqn:Hcall; try discriminate.
  injection H as _ <-.
  destruct (call_writeAttr_returns _ _ _ _ _ Hcall) as [Hf Hi].
  unfold assign_attrValue in *. rewrite assign_integrity in Hext.
  split; [exact (Hi Hext)|].
  rewrite assign_extensible by exact Hext. rewrite Hf. reflexivity.
Qed.

Lemma push_attrValue_returns ch c c' :
  push_attrValue ch c = Returns c' ->
  exists a, attrValue (fields c) = AV_array a
            /\ c' = mutate (set_attrValue (AV_array (a ++ [ch]))) c.
Proof.
  unfold push_attrValue. destruct (attrValue (fields c)) as [| |a];
    try discriminate.
  intros H. injection H as <-. eauto.
Qed.

(** A step never gives back a right the context has lost. *)
Lemma SM_extensible st ch buf c next buf' c' :
  SM st ch buf c = Returns (next, buf', c') ->
  integrity c' = Extensible -> integrity c = Extensible.
Proof.
  intros H Hext.
  destruct st; unfold SM in H;
    unfold SM_find_doctype, SM_read_doctype, SM_writethrough,
      SM_writethrough_to_end, SM_read_tag_name, finish_tag_name,
      SM_find_attr_name_start, SM_read_attr_name, SM_find_attr_equals,
      SM_find_attr_value_start, SM_find_attr_value_end_quote,
      SM_find_attr_value_end_no_quote, SM_find_tag_end, SM_find_script_end,
      SM_find_comment_end, mbind, Outcome_bind in H.
  all: repeat match type of H with
         | context [match ?x with _ => _ end] =>
           lazymatch x with
           | write_attr_and_char _ _ _ => fail
           | push_attrValue _ _ => fail
           | _ => destruct x eqn:?
           end
         end; try discriminate H.
  all: try match type of H with
         | context [write_attr_and_char ?ch ?b ?v] =>
           destruct (write_attr_and_char ch b v) as [[b1 v1]|] eqn:Hw;
             try discriminate H
         | context [push_attrValue ?ch ?v] =>
           destruct (push_attrValue ch v) as [v1|] eqn:Hp;
             try discriminate H;
             apply push_attrValue_returns in Hp as (a1 & Ha1 & ->)
         end.
  all: injection H as _ _ <-.
  all: try (eapply write_attr_and_char_returns; eassumption).
  all: unfold assign_doctype, delete_doctype, assign_tagName, assign_attrs,
         assign_attrName, assign_writeAttr, assign_endQuote, assign_attrValue,
         assign_currentTag, delete_currentTag, assign_cbuff, mutate in Hext;
       repeat first [rewrite assign_integrity in Hext
                    |rewrite delete_integrity in Hext];
       exact Hext.
Qed.

Lemma transform_loop_extensible chunk : forall st buf c st' buf' c',
  HTMLTransformer.transform_loop chunk st buf c = Returns (st', buf', c') ->
  integrity c' = Extensible -> integrity c = Extensible.
Proof.
  induction chunk as [|ch rest IH]; intros st buf c st' buf' c' H Hext.
  - injection H as _ _ <-. exact Hext.
  - cbn [HTMLTransformer.transform_loop] in H. unfold mbind, Outcome_bind in H.
    destruct (SM st ch buf c) as [[[next b1] c1]|] eqn:Hstep;
      try discriminate.
    destruct next as [st1|]; [|discriminate].
    eapply SM_extensible; [exact Hstep|]. eapply IH; eassumption.
Qed.

(** As long as the context is extensible, the fields a state reads are
    set. *)
Lemma SM_context_ok st ch buf c st' buf' c' :
  integrity c' = Extensible ->
  context_ok st (fields c) ->
  SM st ch buf c = Returns (Some st', buf', c') ->
  context_ok st' (fields c').
Proof.
  intros Hext' [Hav Hctx] H.
  pose proof (SM_extensible _ _ _ _ _ _ _ H Hext') as Hext.
  destruct c as [vars i bf bp]. cbn [integrity] in Hext. subst i.
  cbn [fields] in Hav, Hctx.
  destruct st; cbn [collecting] in Hav; try contradiction;
    unfold SM in H;
    unfold SM_find_doctype, SM_read_doctype, SM_writethrough,
      SM_writethrough_to_end, SM_read_tag_name, finish_tag_name,
      SM_find_attr_name_start, SM_read_attr_name, SM_find_attr_equals,
      SM_find_attr_value_start, SM_find_attr_value_end_quote,
      SM_find_attr_value_end_no_quote, SM_find_script_end,
      SM_find_comment_end, mbind, Outcome_bind in H;
    ctx_simpl in H.
  all: repeat match type of H with
         | context [match ?x with _ => _ end] =>
           lazymatch x with
           | write_attr_and_char _ _ _ => fail
           | push_attrValue _ _ => fail
           | _ => destruct x eqn:?
           end
         end; try discriminate H.
  all: try match type of H with
         | context [write_attr_and_char ?ch ?b ?v] =>
           destruct (write_attr_and_char ch b v) as [[b1 v1]|] eqn:Hw;
             try discriminate H
         | context [push_attrValue ?ch ?v] =>
           destruct (push_attrValue ch v) as [v1|] eqn:Hp;
             try discriminate H;
             apply push_attrValue_returns in Hp as (a1 & Ha1 & ->)
         end.
  all: injection H as <- _ <-.
  all: try (apply write_attr_and_char_returns in Hw as [_ Hf];
            [|exact Hext']; cbn [fields] in Hf; rewrite Hf).
  all: ctx_simpl.
  all: try match goal with
         | |- context_ok (endOfTagCheck ?ch ?v ?k) _ =>
           destruct (endOfTagCheck_cases ch v k) as [->|[->| ->]]
         end.
  all: unfold context_ok; cbn; repeat split; try congruence; eauto;
    try (destruct Hctx; congruence).
Qed.

Lemma context_ok_initial prefix :
  context_ok find_doctype (HTMLTransformer._vars (HTMLTransformer.new prefix)).
Proof. split; [discriminate|exact I]. Qed.

Lemma transform_loop_context_ok chunk : forall st buf c st' buf' c',
  integrity c' = Extensible ->
  context_ok st (fields c) ->
  HTMLTransformer.transform_loop chunk st buf c = Returns (st', buf', c') ->
  context_ok st' (fields c').
Proof.
  induction chunk as [|ch rest IH]; intros st buf c st' buf' c' Hext Hctx H.
  - injection H as <- _ <-. exact Hctx.
  - cbn [HTMLTransformer.transform_loop] in H. unfold mbind, Outcome_bind in H.
    destruct (SM st ch buf c) as [[[next b1] c1]|] eqn:Hstep;
      try discriminate.
    destruct next as [st1|]; [|discriminate].
    eapply IH; [exact Hext| |exact H].
    eapply SM_context_ok; [|exact Hctx|exact Hstep].
    eapply transform_loop_extensible; eassumption.
Qed.

(** The state [find-tag-end] is entered from itself only. *)
Lemma SM_not_find_tag_end st ch buf c st' buf' c' :
  st <> find_tag_end ->
  SM st ch buf c = Returns (Some st', buf', c') ->
  st' <> find_tag_end.
Proof.
  intros Hst H.
  destruct st; try contradiction; unfold SM in H;
    unfold SM_find_doctype, SM_read_doctype, SM_writethrough,
      SM_writethrough_to_end, SM_read_tag_name, finish_tag_name,
      SM_find_attr_name_start, SM_read_attr_name, SM_find_attr_equals,
      SM_find_attr_value_start, SM_find_attr_value_end_quote,
      SM_find_attr_value_end_no_quote, SM_find_script_end,
      SM_find_comment_end, mbind, Outcome_bind in H.
  all: repeat match type of H with
         | context [match ?x with _ => _ end] => destruct x eqn:?
         end; try discriminate H.
  all: injection H as <- _ _.
  all: try discriminate.
  all: match goal with
       | |- endOfTagCheck ?ch ?v ?k <> _ =>
         destruct (endOfTagCheck_cases ch v k) as [->|[->| ->]]; discriminate
       end.
Qed.

Lemma transform_loop_not_find_tag_end chunk : forall st buf c st' buf' c',
  st <> find_tag_end ->
  HTMLTransformer.transform_loop chunk st buf c = Returns (st', buf', c') ->
  st' <> find_tag_end.
Proof.
  induction chunk as [|ch rest IH]; intros st buf c st' buf' c' Hst H.
  - injection H as <- _ _. exact Hst.
  - cbn [HTMLTransformer.transform_loop] in H. unfold mbind, Outcome_bind in H.
    destruct (SM st ch buf c) as [[[next b1] c1]|] eqn:Hstep;
      try discriminate.
    destruct next as [st1|]; [|discriminate].
    eapply IH; [|exact H]. eapply SM_not_find_tag_end; eassumption.
Qed.

(** X5.  No run reaches the state [find-tag-end].  At the end of a run
    whose context is still extensible (no call has been made on it of
    [Object.preventExtensions], [Object.seal] or [Object.freeze], which a
    tag named [constructor] can make), the context holds an attribute value
    exactly when the machine stopped in one of the two states that read a
    value; it is this value [_flush] writes out. *)
Theorem value_open_iff_collecting prefix chunks c :
  HTMLTransformer.run prefix chunks = Returns c ->
  HTMLTransformer._state (HTMLTransformer.this c) <> find_tag_end
  /\ (integrity (HTMLTransformer._vars (HTMLTransformer.this c)) = Extensible ->
      ((exists a, attrValue (HTMLTransformer._vars (HTMLTransformer.this c))
                  = AV_array a)
       <-> collecting (HTMLTransformer._state (HTMLTransformer.this c)) = true)).
Proof.
  intros Hrun.
  destruct (run_returns _ _ _ Hrun) as (st & buf & vars & Hloop & ->).
  cbn [HTMLTransformer._flush HTMLTransformer.this HTMLTransformer._vars
       HTMLTransformer._state].
  split.
  - eapply transform_loop_not_find_tag_end; [|exact Hloop]. discriminate.
  - intros Hext.
    pose proof (transform_loop_context_ok _ _ _ _ _ _ _ Hext
                  (context_ok_initial prefix) Hloop) as [Hav Hctx].
    destruct (collecting st).
    + tauto.
    + split; [|discriminate]. intros [a Ha]. exfalso. exact (Hav a Ha).
Qed.

Lemma value_open_iff_collecting_witness :
  match HTMLTransformer.run (js "/p") [doc "<!DOCTYPE html><a href='/x"] with
  | Returns c =>
    HTMLTransformer._state (HTMLTransformer.this c) <> find_tag_end
    /\ (integrity (HTMLTransformer._vars (HTMLTransformer.this c)) = Extensible ->
        ((exists a, attrValue (HTMLTransformer._vars (HTMLTransformer.this c))
                    = AV_array a)
         <-> collecting (HTMLTransformer._state (HTMLTransformer.this c)) = true))
  | _ => False
  end.
Proof.
  destruct (HTMLTransformer.run (js "/p") [doc "<!DOCTYPE html><a href='/x"])
    as [c|] eqn:Hrun.
  - exact (value_open_iff_collecting _ _ _ Hrun).
  - vm_compute in Hrun. discriminate Hrun.
Defined.

Lemma isNameChar_ascii b : isNameChar b = true -> 0 <= b < 128.
Proof.
  unfold isNameChar, Chars.A, Chars.Z_, Chars.a, Chars.z, Chars.Dash,
    Chars.Underscore.
  intros H. repeat (apply orb_true_iff in H as [H|H]);
    try (apply andb_true_iff in H as [H1 H2]); lia.
Qed.

(** ** Comments *)








(** ** Runs of the machine through one state *)

Lemma transform_loop_step ch rest st buf vars st' buf' vars' :
  SM st ch buf vars = Returns (Some st', buf', vars') ->
  HTMLTransformer.transform_loop (ch :: rest) st buf vars
  = HTMLTransformer.transform_loop rest st' buf' vars'.
Proof.
  intros H. cbn [HTMLTransformer.transform_loop]. rewrite H. reflexivity.
Qed.

Lemma write_units_bytes l buf :
  buffer_ok buf -> Forall is_byte l ->
  written (write_units l buf) = written buf ++ l /\ buffer_ok (write_units l buf).
Proof.
  intros Hok Hl. destruct (write_units_written l buf Hok) as [Hw Hok'].
  unfold write_units. rewrite Hw, (low_bytes_bytes l) by exact Hl. auto.
Qed.

Lemma isWhitespace_byte b : isWhitespace b = true -> is_byte b.
Proof. unfold isWhitespace, is_byte, Chars.Space, Chars.Tab, Chars.LF, Chars.CR. lia. Qed.



Lemma writethrough_run text : forall buf vars,
  Forall (fun c => c <> Chars.Lt) text ->
  HTMLTransformer.transform_loop text writethrough buf vars
  = Returns (writethrough, write_units text buf, vars).
Proof.
  induction text as [|ch text IH]; intros buf vars Hlt; [reflexivity|].
  inversion Hlt as [|? ? Hch Htext]; subst.
  rewrite (transform_loop_step _ _ _ _ _ writethrough (writeChar ch buf) vars).
  - rewrite IH by exact Htext. reflexivity.
  - cbn [SM]. unfold SM_writethrough.
    destruct (Z.eqb_spec ch Chars.Lt); [contradiction|reflexivity].
Qed.

(** X8.  Text outside tags is never touched: from [writethrough], bytes
    none of which is [<] are copied as they are, and the state and the
    context stay what they were. *)
Theorem text_copied text buf vars :
  buffer_ok buf ->
  Forall is_byte text ->
  Forall (fun c => c <> Chars.Lt) text ->
  exists buf',
    HTMLTransformer.transform_loop text writethrough buf vars
    = Returns (writethrough, buf', vars)
    /\ written buf' = written buf ++ text.
Proof.
  intros Hok Hbytes Hlt. exists (write_units text buf).
  split; [apply writethrough_run; exact Hlt|].
  apply write_units_bytes; assumption.
Qed.

Lemma text_copied_witness :
  exists buf',
    HTMLTransformer.transform_loop (js "a > b") writethrough (WriteBuffer_new 4096)
      (HTMLTransformer._vars (HTMLTransformer.new (js "/base")))
    = Returns (writethrough, buf',
               HTMLTransformer._vars (HTMLTransformer.new (js "/base")))
    /\ written buf' = written (WriteBuffer_new 4096) ++ js "a > b".
Proof.
  apply text_copied.
  - apply buffer_ok_new. lia.
  - apply (bool_decide_unpack _). vm_compute. exact I.
  - apply (bool_decide_unpack _). vm_compute. exact I.
Defined.

(** ** The doctype *)

Lemma set_doctype_same d vars :
  doctype vars = Some d -> set_doctype (Some d) vars = vars.
Proof. destruct vars. cbn. intros ->. reflexivity. Qed.

Lemma find_doctype_run ws : forall buf vars,
  Forall (fun b => isWhitespace b = true) ws ->
  HTMLTransformer.transform_loop ws find_doctype buf vars
  = Returns (find_doctype, write_units ws buf, vars).
Proof.
  induction ws as [|ch ws IH]; intros buf vars Hws; [reflexivity|].
  inversion Hws as [|? ? Hch Hrest]; subst.
  rewrite (transform_loop_step _ _ _ _ _ find_doctype (writeChar ch buf) vars).
  - rewrite IH by exact Hrest. reflexivity.
  - cbn [SM]. unfold SM_find_doctype. rewrite Hch. reflexivity.
Qed.

Lemma read_doctype_run body : forall d buf (vars : Vars),
  doctype vars = Some d ->
  Forall (fun b => b <> Chars.Gt) body ->
  (length (d ++ filter (fun b => isWhitespace b = false) body)
   <= length DOCTYPE)%nat ->
  HTMLTransformer.transform_loop body read_doctype buf vars
  = Returns (read_doctype, write_units body buf,
             set_doctype
               (Some (d ++ filter (fun b => isWhitespace b = false) body)) vars).
Proof.
  induction body as [|ch body IH]; intros d buf vars Hd Hgt Hlen.
  - cbn [filter list_filter]. rewrite app_nil_r, (set_doctype_same d) by exact Hd.
    reflexivity.
  - inversion Hgt as [|? ? Hch Hrest]; subst.
    rewrite filter_cons in Hlen |- *.
    set (d' := if negb (isWhitespace ch) then d ++ [ch] else d).
    assert (Hd' : d ++ (if decide (isWhitespace ch = false)
                        then ch :: filter (fun b => isWhitespace b = false) body
                        else filter (fun b => isWhitespace b = false) body)
                  = d' ++ filter (fun b => isWhitespace b = false) body).
    { unfold d'. destruct (decide (isWhitespace ch = false)) as [->|Hn].
      - cbn [negb]. rewrite <- app_assoc. reflexivity.
      - apply not_false_is_true in Hn. rewrite Hn. reflexivity. }
    rewrite Hd' in Hlen |- *.
    rewrite (transform_loop_step _ _ _ _ _ read_doctype (writeChar ch buf)
               (set_doctype (Some d') vars)).
    + rewrite (IH d') by (try reflexivity; assumption). reflexivity.
    + cbn [SM]. unfold SM_read_doctype. ctx_simpl. rewrite Hd.
      destruct (Z.eqb_spec ch Chars.Gt); [contradiction|].
      fold d'.
      assert (Hle : (length d' <= length DOCTYPE)%nat).
      { rewrite length_app in Hlen. lia. }
      apply Nat.ltb_ge in Hle. rewrite Hle. reflexivity.
Qed.

Lemma ascii_lower_ascii d : forall l,
  ascii_lower d = l ->
  Forall (fun u => 0 <= u < 128) l ->
  Forall (fun b => 0 <= b < 128) d.
Proof.
  induction d as [|b d IH]; intros l Hl Hascii; [constructor|].
  cbn in Hl. subst l. inversion Hascii as [|? ? Hb Hrest]; subst.
  constructor; [|apply (IH _ eq_refl Hrest)].
  unfold Chars.A, Chars.Z_ in *.
  destruct ((65 <=? b) && (b <=? 90)) eqn:Hu; lia.
Qed.

Lemma toLowerCase_ascii us :
  Forall (fun u => 0 <= u < 128) us -> toLowerCase us = ascii_lower us.
Proof.
  induction 1 as [|u us Hu _ IH]; [reflexivity|].
  unfold toLowerCase, ascii_lower in *. cbn [flat_map map]. rewrite IH.
  unfold lower_unit.
  destruct ((Chars.A <=? u) && (u <=? Chars.Z_)); [reflexivity|].
  destruct (Z.eqb_spec u 304); [lia|].
  destruct (Z.eqb_spec u 8490); [lia|]. reflexivity.
Qed.

Lemma DOCTYPE_ascii : Forall (fun u => 0 <= u < 128) DOCTYPE.
Proof. apply (bool_decide_unpack _). vm_compute. exact I. Qed.

(** X9.  The doctype that switches rewriting on: white space, [<], a
    declaration without [>] whose bytes other than white space spell
    [!doctypehtml] up to ASCII case, and [>].  The machine copies it and is
    in [writethrough] afterwards. *)
Theorem doctype_accepted ws body buf (vars : Vars) :
  buffer_ok buf ->
  Forall (fun b => isWhitespace b = true) ws ->
  Forall (fun b => b <> Chars.Gt) body ->
  ascii_lower (filter (fun b => isWhitespace b = false) body) = DOCTYPE ->
  exists buf',
    HTMLTransformer.transform_loop (ws ++ [Chars.Lt] ++ body ++ [Chars.Gt])
      find_doctype buf vars
    = Returns (writethrough, buf', set_doctype None vars)
    /\ written buf' = written buf ++ ws ++ [Chars.Lt] ++ body ++ [Chars.Gt].
Proof.
  intros Hok Hws Hgt Hdt.
  set (d := filter (fun b => isWhitespace b = false) body) in *.
  assert (Hd : Forall (fun b => 0 <= b < 128) d).
  { apply (ascii_lower_ascii d DOCTYPE Hdt DOCTYPE_ascii). }
  assert (Hbody : Forall is_byte body).
  { apply Forall_forall. intros x Hx.
    destruct (isWhitespace x) eqn:Hw; [apply isWhitespace_byte; exact Hw|].
    assert (Hin : x ∈ d) by (apply list_elem_of_filter; auto).
    rewrite Forall_forall in Hd. specialize (Hd x Hin). unfold is_byte. lia. }
  exists (write_units (ws ++ [Chars.Lt] ++ body ++ [Chars.Gt]) buf).
  split.
  - rewrite transform_loop_app, find_doctype_run by exact Hws.
    cbn [mbind Outcome_bind].
    change ([Chars.Lt] ++ body ++ [Chars.Gt]) with (Chars.Lt :: body ++ [Chars.Gt]).
    rewrite (transform_loop_step _ _ _ _ _ read_doctype
               (writeChar Chars.Lt (write_units ws buf))
               (set_doctype (Some []) vars)) by reflexivity.
    rewrite transform_loop_app.
    rewrite (read_doctype_run body []); [|reflexivity|exact Hgt|].
    + cbn [mbind Outcome_bind app].
      rewrite (transform_loop_step _ _ _ _ _ writethrough
                 (writeChar Chars.Gt (write_units body
                    (writeChar Chars.Lt (write_units ws buf))))
                 (set_doctype None vars)).
      * cbn [HTMLTransformer.transform_loop].
        unfold write_units. rewrite fold_left_app. cbn [app fold_left].
        rewrite fold_left_app. reflexivity.
      * cbn [SM]. unfold SM_read_doctype. ctx_simpl.
        cbn [doctype set_doctype Z.eqb Chars.Gt Pos.eqb].
        fold d. rewrite (str_ascii d Hd), (toLowerCase_ascii d Hd), Hdt.
        unfold str_eqb. rewrite bool_decide_eq_true_2 by reflexivity.
        reflexivity.
    + cbn [app]. fold d. rewrite <- Hdt. unfold ascii_lower.
      rewrite length_map. lia.
  - apply write_units_bytes; [exact Hok|].
    rewrite !Forall_app. split; [|split; [|split]].
    + eapply Forall_impl; [exact Hws|]. intros x. apply isWhitespace_byte.
    + constructor; [unfold is_byte, Chars.Lt; lia|constructor].
    + exact Hbody.
    + constructor; [unfold is_byte, Chars.Gt; lia|constructor].
Qed.

Lemma doctype_accepted_witness :
  exists buf',
    HTMLTransformer.transform_loop
      ([32; 10] ++ [Chars.Lt] ++ js "!DocType  html" ++ [Chars.Gt])
      find_doctype (WriteBuffer_new 4096)
      (HTMLTransformer._vars (HTMLTransformer.new (js "/base")))
    = Returns (writethrough, buf',
               set_doctype None
                 (HTMLTransformer._vars (HTMLTransformer.new (js "/base"))))
    /\ written buf'
       = written (WriteBuffer_new 4096)
         ++ [32; 10] ++ [Chars.Lt] ++ js "!DocType  html" ++ [Chars.Gt].
Proof.
  apply doctype_accepted.
  - apply buffer_ok_new. lia.
  - apply (bool_decide_unpack _). vm_compute. exact I.
  - apply (bool_decide_unpack _). vm_compute. exact I.
  - vm_compute. reflexivity.
Defined.

(** ** Runs that cannot raise *)

(** The three members of Object.prototype whose call raises have an
    underscore in their name. *)
Lemma raising_member_underscore name m :
  ObjectPrototype_member name = Some m ->
  m = P_proto \/ m = P_defineGetter \/ m = P_defineSetter ->
  In Chars.Underscore name.
Proof.
  unfold ObjectPrototype_member, ObjectPrototype_members.
  cbn [own_property]. unfold str_eqb.
  repeat (case_bool_decide as Hk;
          [subst name; intros Hm; injection Hm as <-;
           intros [Hd|[Hd|Hd]]; try discriminate Hd; vm_compute; tauto
          |clear Hk]).
  discriminate.
Qed.

(** What a table of strategies gives under a name without underscore. *)
Lemma Attrs_get_harmless t name :
  Forall (fun b => b <> Chars.Underscore) name ->
  match Attrs_get (ATable t) name with
  | Some v => harmless v = true
  | None => True
  end.
Proof.
  intros Hname.
  assert (Hno : forall m, ObjectPrototype_member name = Some m ->
                  m = P_proto \/ m = P_defineGetter \/ m = P_defineSetter ->
                  False).
  { intros m Hm Hcase. pose proof (raising_member_underscore _ _ Hm Hcase) as Hin.
    rewrite Forall_forall in Hname. apply list_elem_of_In in Hin.
    exact (Hname _ Hin eq_refl). }
  cbn [Attrs_get].
  destruct (own_property name t); [reflexivity|].
  destruct (ObjectPrototype_member name) as [m|] eqn:Hm; [|exact I].
  destruct m; try reflexivity; exfalso; eapply Hno; eauto.
Qed.

Lemma Attrs_get_table t name v :
  Attrs_get (ATable t) name = Some v -> v <> VRestricted.
Proof.
  cbn [Attrs_get]. destruct (own_property name t);
    [intros H; injection H as <-; discriminate|].
  destruct (ObjectPrototype_member name) as [[]|];
    intros H; try discriminate H; injection H as <-; discriminate.
Qed.

Lemma ascii_lower_app a b : ascii_lower (a ++ b) = ascii_lower a ++ ascii_lower b.
Proof. apply map_app. Qed.

Lemma ascii_lower_no_upper_case a : no_upper_case (ascii_lower a) = true.
Proof.
  unfold no_upper_case, ascii_lower. rewrite forallb_forall.
  intros x Hx. apply in_map_iff in Hx as (b & <- & _).
  unfold Chars.A, Chars.Z_.
  destruct ((65 <=? b) && (b <=? 90)) eqn:Hb; [|rewrite Hb; reflexivity].
  apply andb_true_iff in Hb as [H1 H2].
  apply negb_true_iff, andb_false_iff. right. lia.
Qed.

Lemma ascii_lower_underscore a :
  Forall (fun b => b <> Chars.Underscore) a ->
  Forall (fun b => b <> Chars.Underscore) (ascii_lower a).
Proof.
  unfold ascii_lower. intros H. apply Forall_map.
  eapply Forall_impl; [exact H|]. cbn beta. intros b Hb.
  unfold Chars.Underscore, Chars.A, Chars.Z_ in *.
  destruct ((65 <=? b) && (b <=? 90)) eqn:Hc; [|exact Hb].
  apply andb_true_iff in Hc as [H1 H2]. lia.
Qed.

(** Of the names [RewriteTags] inherits, the only one in lower case and
    without underscore is [constructor]. *)
Lemma RewriteTags_get_table name a :
  no_upper_case name = true ->
  Forall (fun b => b <> Chars.Underscore) name ->
  name <> js "constructor" ->
  RewriteTags_get name = Some a -> exists t, a = ATable t.
Proof.
  intros Hup Hus Hc. unfold RewriteTags_get.
  destruct (own_property name RewriteTags) as [t|];
    [intros H; injection H as <-; eauto|].
  unfold ObjectPrototype_member, ObjectPrototype_members.
  cbn [own_property]. unfold str_eqb.
  repeat (case_bool_decide as Hk;
          [subst name; exfalso;
           first [apply Hc; reflexivity
                 |vm_compute in Hup; discriminate Hup
                 |vm_compute in Hus; exact (Forall_inv Hus eq_refl)]
          |clear Hk]).
  discriminate.
Qed.

Lemma occurs_inb_complete p s : occurs_in p s -> occurs_inb p s = true.
Proof.
  intros (pre & post & ->). induction pre as [|x pre IH].
  - cbn [app]. destruct (p ++ post) as [|y r] eqn:Hs.
    + apply app_eq_nil in Hs as [-> _]. reflexivity.
    + cbn [occurs_inb]. rewrite <- Hs.
      rewrite take_app_length. rewrite bool_decide_eq_true_2 by reflexivity.
      reflexivity.
  - cbn [app occurs_inb]. rewrite IH. apply orb_true_r.
Qed.

Lemma occurs_in_app_l p s r : occurs_in p s -> occurs_in p (s ++ r).
Proof.
  intros (pre & post & ->). exists pre, (post ++ r).
  rewrite <- !app_assoc. reflexivity.
Qed.

(** The table looked up for a tag whose name has been read. *)
Lemma tag_attrs_table consumed pre a attrs0 :
  consumed = pre ++ a ->
  Forall (fun b => isTagChar b = true /\ b <> Chars.Underscore) a ->
  ~ occurs_in (js "constructor") (ascii_lower consumed) ->
  rewrites_for (toLowerCase (str a)) = Some attrs0 ->
  exists t, attrs0 = ATable t.
Proof.
  intros -> Ha Hocc H. unfold rewrites_for in H.
  assert (Hascii : Forall (fun b => 0 <= b < 128) a).
  { eapply Forall_impl; [exact Ha|]. cbn beta. intros b [Hb _].
    unfold isTagChar in Hb. apply orb_true_iff in Hb as [Hb|Hb].
    - unfold Chars.Bang in Hb. lia.
    - apply isNameChar_ascii. exact Hb. }
  rewrite (str_ascii a Hascii), (toLowerCase_ascii a Hascii) in H.
  destruct (RewriteTags_get (ascii_lower a)) as [a0|] eqn:Hget.
  - injection H as <-.
    eapply RewriteTags_get_table; [| | |exact Hget].
    + apply ascii_lower_no_upper_case.
    + apply ascii_lower_underscore. eapply Forall_impl; [exact Ha|].
      cbn beta. tauto.
    + intros Heq. apply Hocc. rewrite ascii_lower_app, Heq.
      exists (ascii_lower pre), []. reflexivity.
  - vm_compute in H. injection H as <-. eauto.
Qed.

Lemma call_writeAttr_harmless w c buf a :
  harmless w = true ->
  attrValue (fields c) = AV_array a ->
  exists buf', call_writeAttr w c buf = Returns (buf', c).
Proof.
  intros Hw Ha.
  destruct w as [[]|[]| | | | | |]; try discriminate Hw;
    unfold call_writeAttr, apply_rewrite, writeValue, prefixValue,
      prefixSrcSetValues, prefixCSSURLValues, mbind, Outcome_bind;
    try rewrite Ha; eauto.
Qed.

Lemma write_attr_and_char_harmless ch buf c w a :
  writeAttr (fields c) = Some w -> harmless w = true ->
  attrValue (fields c) = AV_array a ->
  exists buf', write_attr_and_char ch buf c
               = Returns (buf', assign_attrValue AV_false c).
Proof.
  intros Hwa Hw Ha. unfold write_attr_and_char, mbind, Outcome_bind.
  rewrite Hwa.
  destruct (call_writeAttr_harmless w c buf a Hw Ha) as [b1 ->]. eauto.
Qed.

Ltac SM_unfold H :=
  unfold SM in H;
  unfold SM_find_doctype, SM_read_doctype, SM_writethrough,
    SM_writethrough_to_end, SM_read_tag_name, finish_tag_name,
    SM_find_attr_name_start, SM_read_attr_name, SM_find_attr_equals,
    SM_find_attr_value_start, SM_find_attr_value_end_quote,
    SM_find_attr_value_end_no_quote, SM_find_script_end,
    SM_find_comment_end, mbind, Outcome_bind in H.

(** A state function raises only by reading a field that is not set, by
    looking a name up in a function, or by calling a value that is not
    harmless. *)
Lemma SM_no_throw consumed st ch buf c e :
  context_ok st (fields c) -> calm consumed st c -> SM st ch buf c <> Throws e.
Proof.
  intros [Hav Hctx] (Hext & Hw & Hn & Ha & Ht) H.
  destruct st; cbn [collecting] in Hav; try contradiction; SM_unfold H.
  all: try (destruct (Ht eq_refl) as (a0 & pre0 & Htag & _ & _);
            rewrite Htag in H).
  all: try match type of H with
         | context [write_attr_and_char ?ch0 ?b ?v] =>
           destruct Hav as [a1 Ha1]; destruct Hctx as [_ Hwa];
             destruct (writeAttr (fields c)) as [w|] eqn:Hwr;
             [|congruence];
             destruct (write_attr_and_char_harmless ch0 b v w a1 Hwr
                         (Hw w eq_refl) Ha1) as [b1 Hcall];
             rewrite Hcall in H
         end.
  all: try match type of H with
         | context [push_attrValue ?ch0 ?v] =>
           unfold push_attrValue in H; destruct Hav as [a2 Ha2];
             try rewrite Ha2 in H
         end.
  all: try match type of H with
         | context [assign_writeAttr] =>
           destruct (attrs (fields c)) as [a3|] eqn:Hattrs;
             [destruct (Ha a3 eq_refl) as [t ->]|destruct Hctx; congruence];
             destruct (attrName (fields c)) as [n|] eqn:Hname;
             [|destruct Hctx; congruence];
             pose proof (Attrs_get_table t (str n)) as Hget
         end.
  all: repeat match type of H with
         | context [match ?x with _ => _ end] => destruct x eqn:?
         end; try discriminate H.
  all: try (destruct Hctx; congruence).
  all: try congruence.
  all: try exact (Hget _ eq_refl eq_refl).
  all: match goal with
       | Hp : push_attrValue _ _ = Throws _, Hv : attrValue _ = AV_array _
         |- _ =>
         unfold push_attrValue in Hp; rewrite Hv in Hp; discriminate Hp
       end.
Qed.

Lemma SM_calm consumed st ch buf c st' buf' c' :
  context_ok st (fields c) -> calm consumed st c ->
  ch <> Chars.Underscore ->
  ~ occurs_in (js "constructor") (ascii_lower consumed) ->
  SM st ch buf c = Returns (Some st', buf', c') ->
  calm (consumed ++ [ch]) st' c'.
Proof.
  intros [Hav Hctx] (Hext & Hw & Hn & Ha & Ht) Hch Hocc H.
  destruct c as [vars i bf bp]. cbn [integrity] in Hext. subst i.
  cbn [fields] in Hav, Hctx, Hw, Hn, Ha, Ht.
  destruct st; cbn [collecting] in Hav; try contradiction; SM_unfold H.
  all: try (destruct (Ht eq_refl) as (a0 & pre0 & Htag & Hcons & Htagchars);
            cbn [fields] in H; rewrite Htag in H;
            fold (rewrites_for (toLowerCase (str a0))) in H).
  all: try match type of H with
         | context [write_attr_and_char ?ch0 ?b ?v] =>
           destruct Hav as [a1 Ha1]; destruct Hctx as [_ Hwa];
             destruct (writeAttr vars) as [w|] eqn:Hwr; [|congruence];
             destruct (write_attr_and_char_harmless ch0 b v w a1 Hwr
                         (Hw w eq_refl) Ha1) as [b1 Hcall];
             rewrite Hcall in H
         end.
  all: try match type of H with
         | context [assign_writeAttr] =>
           cbn [fields] in H;
           destruct (attrs vars) as [a3|] eqn:Hattrs;
             [destruct (Ha a3 eq_refl) as [t ->]
             |exfalso; destruct Hctx; congruence];
             destruct (attrName vars) as [n|] eqn:Hname;
             [|discriminate H];
             pose proof (Hn n eq_refl) as Hchars;
             assert (Hstr : str n = n)
               by (apply str_ascii; eapply Forall_impl; [exact Hchars|];
                   intros b0 [Hb0 _]; apply isNameChar_ascii; exact Hb0);
             rewrite Hstr in H;
             assert (Hus : Forall (fun b => b <> Chars.Underscore) n)
               by (eapply Forall_impl; [exact Hchars|]; cbn beta; tauto);
             pose proof (Attrs_get_harmless t n Hus) as Hget
         end.
  all: ctx_simpl in H.
  all: repeat match type of H with
         | context [match ?x with _ => _ end] =>
           lazymatch x with
           | push_attrValue _ _ => fail
           | _ => destruct x eqn:?
           end
         end; try discriminate H.
  all: try match type of H with
         | context [push_attrValue ?ch0 ?v] =>
           destruct (push_attrValue ch0 v) as [v1|] eqn:Hp;
             try discriminate H;
             apply push_attrValue_returns in Hp as (a2 & Ha2 & ->)
         end.
  all: injection H as <- _ <-.
  all: unfold calm; ctx_simpl;
    cbn [writeAttr attrName attrs tagName set_doctype set_tagName set_attrs
         set_attrName set_writeAttr set_endQuote set_attrValue set_currentTag
         set_cbuff].
  all: split; [reflexivity|].
  all: split;
    [first [exact Hw
           |intros w0 Hw0; apply Hw; congruence
           |intros w0 Hw0; injection Hw0 as <-; first [exact Hget|reflexivity]]
    |].
  all: split;
    [first [exact Hn
           |intros n0 Hn0; apply Hn; congruence
           |intros n0 Hn0; injection Hn0 as <-;
            first [repeat constructor; assumption
                  |apply Forall_app; split;
                   [apply Hn; reflexivity|repeat constructor; assumption]]]
    |].
  all: split;
    [first [exact Ha
           |intros a4 Ha4; apply Ha; congruence
           |intros a4 Ha4; injection Ha4 as <-;
            match goal with
            | Hr : rewrites_for _ = Some _ |- _ =>
              exact (tag_attrs_table _ _ _ _ Hcons Htagchars Hocc Hr)
            end]
    |].
  all: try match goal with
         | |- endOfTagCheck ?ch0 ?v ?k = _ -> _ =>
           destruct (endOfTagCheck_cases ch0 v k) as [->|[->| ->]]
         end.
  all: try (intros Hst; discriminate Hst).
  - intros _. exists [], (consumed ++ [ch]). rewrite app_nil_r.
    repeat split. constructor.
  - intros _. exists (a0 ++ [ch]), pre0. subst consumed.
    rewrite app_assoc. repeat split.
    apply Forall_app. split; [exact Htagchars|].
    repeat constructor; assumption.
Qed.

Lemma calm_initial prefix :
  calm [] find_doctype (HTMLTransformer._vars (HTMLTransformer.new prefix)).
Proof.
  split; [reflexivity|]. do 3 (split; [intros x Hx; discriminate Hx|]).
  intros Hst. discriminate Hst.
Qed.

Lemma transform_loop_no_throw chunk : forall consumed st buf c e,
  context_ok st (fields c) -> calm consumed st c ->
  Forall (fun b => b <> Chars.Underscore) chunk ->
  ~ occurs_in (js "constructor") (ascii_lower (consumed ++ chunk)) ->
  HTMLTransformer.transform_loop chunk st buf c <> Throws e.
Proof.
  induction chunk as [|ch rest IH]; intros consumed st buf c e Hok Hcalm Hall Hocc;
    [discriminate|].
  inversion Hall as [|? ? Hch Hrest]; subst.
  assert (Hocc1 : ~ occurs_in (js "constructor") (ascii_lower consumed)).
  { intros Hin. apply Hocc. rewrite ascii_lower_app.
    apply occurs_in_app_l. exact Hin. }
  cbn [HTMLTransformer.transform_loop]. unfold mbind, Outcome_bind.
  destruct (SM st ch buf c) as [[[next b1] c1]|e1] eqn:Hstep.
  - destruct next as [st1|];
      [|exfalso; apply (SM_next_defined _ _ _ _ _ _ _ Hstep); reflexivity].
    pose proof (SM_calm _ _ _ _ _ _ _ _ Hok Hcalm Hch Hocc1 Hstep) as Hcalm1.
    apply (IH (consumed ++ [ch])).
    + eapply SM_context_ok; [exact (proj1 Hcalm1)|exact Hok|exact Hstep].
    + exact Hcalm1.
    + exact Hrest.
    + rewrite <- app_assoc. exact Hocc.
  - exfalso. exact (SM_no_throw _ _ _ _ _ _ Hok Hcalm Hstep).
Qed.

(** X6.  A run on an input that holds no underscore and that nowhere
    spells [constructor], in whatever letter case, never raises: a state
    function raises only by calling an attribute strategy resolved to
    [__proto__], [__defineGetter__] or [__defineSetter__], or once a tag
    has been looked up as [constructor], which makes [Object] the table of
    its attributes; and the parse context is never read before it is
    set. *)
Theorem no_underscore_no_exception prefix chunks e :
  Forall (fun b => b <> Chars.Underscore) (concat chunks) ->
  ~ occurs_in (js "constructor") (ascii_lower (concat chunks)) ->
  HTMLTransformer.run prefix chunks <> Throws e.
Proof.
  intros Hall Hocc. unfold HTMLTransformer.run. rewrite write_all_concat.
  unfold mbind, Outcome_bind.
  destruct (HTMLTransformer.transform_loop _ _ _ _) as [[[st buf] vars]|e1]
    eqn:Hloop; try discriminate.
  exfalso.
  exact (transform_loop_no_throw _ [] _ _ _ _ (context_ok_initial prefix)
           (calm_initial prefix) Hall Hocc Hloop).
Qed.

Lemma no_underscore_no_exception_witness :
  HTMLTransformer.run (js "/p")
    [doc "<!DOCTYPE html><a toString='/x' href='/y'>"; doc "<img srcset='/a'"]
  <> Throws TypeError.
Proof.
  apply (no_underscore_no_exception (js "/p")
           [doc "<!DOCTYPE html><a toString='/x' href='/y'>";
            doc "<img srcset='/a'"] TypeError).
  - apply (bool_decide_unpack _). vm_compute. exact I.
  - intros Hocc. apply occurs_inb_complete in Hocc.
    vm_compute in Hocc. discriminate Hocc.
Defined.

(** ** Tags and attributes *)










Lemma prefixValue_written vars buffer value :
  buffer_ok buffer ->
  Forall is_byte value ->
  attrValue vars = AV_array value ->
  exists buffer',
    prefixValue vars buffer = Returns buffer'
    /\ written buffer'
       = written buffer
         ++ (if single_leading_slash value then low_bytes (prefix vars) else [])
         ++ value
    /\ buffer_ok buffer'.
Proof.
  intros Hok Hbytes Hval. unfold prefixValue. rewrite Hval.
  rewrite single_leading_slash_index.
  eexists. split; [reflexivity|].
  destruct (single_leading_slash value).
  - destruct (writeChunk_string_written (prefix vars) buffer Hok) as [Hw Hok'].
    destruct (writeChunk_array_written value _ Hok') as [Hw' Hok''].
    rewrite Hw', Hw, (low_bytes_bytes value), <- app_assoc by assumption.
    split; [reflexivity|exact Hok''].
  - destruct (writeChunk_array_written value buffer Hok) as [Hw Hok'].
    rewrite Hw, (low_bytes_bytes value) by assumption.
    split; [reflexivity|exact Hok'].
Qed.







(** ** Script blocks *)






Lemma prefixCSSURLValues_ascii vars buffer value :
  buffer_ok buffer ->
  Forall (fun b => 0 <= b < 128) value ->
  attrValue vars = AV_array value ->
  dollar_safe (prefix vars) = true ->
  exists buffer',
    prefixCSSURLValues vars buffer = Returns buffer'
    /\ written buffer'
       = written buffer ++ css_rewritten (low_bytes (prefix vars)) None value.
Proof.
  intros Hok Hascii Hval Hp. unfold prefixCSSURLValues. rewrite Hval.
  eexists. split; [reflexivity|].
  match goal with
  | |- written (writeChunk (CString ?s) buffer) = _ =>
    destruct (writeChunk_string_written s buffer Hok) as [Hw _]
  end.
  rewrite Hw. f_equal. unfold replace.
  rewrite str_ascii by assumption.
  rewrite (replace_css_rewritten (prefix vars) Hp (length value)) by lia.
  apply (low_bytes_css_rewritten _ (length value)); [lia|].
  apply ascii_is_byte. exact Hascii.
Qed.

Section AsciiTexts.
Variable P : Z -> Prop.






End AsciiTexts.





(** ** The single-URL strategy with a prefix of ASCII characters *)

(** X23.  For a prefix of ASCII characters, [prefixValue] writes the
    prefix immediately before the value exactly when the value's first
    unit is a slash and its second unit is not; otherwise, a value
    beginning with two slashes included, it writes the value alone.  This
    holds for every such prefix that is not empty. *)
Theorem prefixValue_single_url vars buffer value :
  buffer_ok buffer ->
  Forall is_byte value ->
  attrValue vars = AV_array value ->
  Forall (fun u => 0 <= u < 128) (prefix vars) ->
  prefix vars <> [] ->
  exists buffer',
    prefixValue vars buffer = Returns buffer'
    /\ (written buffer' = written buffer ++ prefix vars ++ value
        <-> single_leading_slash value = true)
    /\ (single_leading_slash value = false ->
        written buffer' = written buffer ++ value).
Proof.
  intros Hok Hbytes Hval Hascii Hne.
  destruct (prefixValue_written vars buffer value Hok Hbytes Hval)
    as (buffer' & Hrun & Hw & _).
  rewrite (low_bytes_bytes (prefix vars)) in Hw
    by (apply ascii_is_byte; exact Hascii).
  exists buffer'. split; [exact Hrun|]. rewrite Hw.
  destruct (single_leading_slash value).
  - split; [tauto|discriminate].
  - split; [|reflexivity].
    split; [|discriminate].
    cbn [app]. intros Heq. apply app_inv_head in Heq.
    apply (f_equal length) in Heq. rewrite length_app in Heq.
    destruct (prefix vars); [congruence|simpl in Heq; lia].
Qed.

Lemma prefixValue_single_url_witness :
  exists buffer',
    prefixValue (vars_with (js "/base") (js "/x")) (WriteBuffer_new 4096)
    = Returns buffer'
    /\ (written buffer'
        = written (WriteBuffer_new 4096)
          ++ prefix (vars_with (js "/base") (js "/x")) ++ js "/x"
        <-> single_leading_slash (js "/x") = true)
    /\ (single_leading_slash (js "/x") = false ->
        written buffer' = written (WriteBuffer_new 4096) ++ js "/x").
Proof.
  apply (prefixValue_single_url (vars_with (js "/base") (js "/x"))
           (WriteBuffer_new 4096) (js "/x")).
  - apply buffer_ok_new. lia.
  - apply (bool_decide_unpack _). vm_compute. exact I.
  - reflexivity.
  - apply (bool_decide_unpack _). vm_compute. exact I.
  - simpl. discriminate.
Defined.

(** ** The empty prefix *)

Lemma css_rewritten_nil : forall n s, (length s <= n)%nat ->
  forall prev, css_rewritten [] prev s = s.
Proof.
  induction n as [|n IH]; intros s Hlen prev.
  - destruct s; [|simpl in Hlen; lia].
    rewrite css_rewritten_equation_1. reflexivity.
  - destruct s as [|c t]; [rewrite css_rewritten_equation_1; reflexivity|].
    destruct (css_url_at prev (c :: t)) as [k|] eqn:Hat.
    + destruct (css_url_at_Some _ _ _ Hat)
        as (ws & next & rest & Hs & Hk & Hrun & Hnext & Hw).
      rewrite <- Hk in Hrun. rewrite Hs in *.
      rewrite css_rewritten_occurrence by assumption.
      rewrite IH; [reflexivity|].
      rewrite !length_app in Hlen. simpl in Hlen. lia.
    + rewrite css_rewritten_copy by assumption.
      rewrite IH; [reflexivity|simpl in Hlen; lia].
Qed.

(** X15.  With the empty prefix the single-URL strategy writes every value
    of bytes as it is. *)
Theorem empty_prefix_single_url vars buffer value :
  buffer_ok buffer ->
  attrValue vars = AV_array value ->
  prefix vars = [] ->
  Forall is_byte value ->
  exists buffer',
    prefixValue vars buffer = Returns buffer'
    /\ written buffer' = written buffer ++ value.
Proof.
  intros Hok Hval Hp Hbytes.
  destruct (prefixValue_written vars buffer value Hok Hbytes Hval)
    as (b' & Hr & Hw & _).
  exists b'. split; [exact Hr|].
  rewrite Hw, Hp. destruct (single_leading_slash value); reflexivity.
Qed.

Lemma empty_prefix_single_url_witness :
  exists buffer',
    prefixValue (vars_with [] (js "/x")) (WriteBuffer_new 4096) = Returns buffer'
    /\ written buffer' = written (WriteBuffer_new 4096) ++ js "/x".
Proof.
  apply empty_prefix_single_url.
  - apply buffer_ok_new. lia.
  - reflexivity.
  - reflexivity.
  - apply (bool_decide_unpack _). vm_compute. exact I.
Defined.

(** X16.  With the empty prefix the CSS-URL strategy writes every value of
    ASCII bytes as it is: each occurrence it finds is replaced by itself. *)
Theorem empty_prefix_css_url vars buffer value :
  buffer_ok buffer ->
  attrValue vars = AV_array value ->
  prefix vars = [] ->
  Forall (fun b => 0 <= b < 128) value ->
  exists buffer',
    prefixCSSURLValues vars buffer = Returns buffer'
    /\ written buffer' = written buffer ++ value.
Proof.
  intros Hok Hval Hp Hascii.
  destruct (prefixCSSURLValues_ascii vars buffer value Hok Hascii Hval)
    as (b' & Hr & Hw).
  { rewrite Hp. constructor. }
  exists b'. split; [exact Hr|].
  rewrite Hw, Hp. cbn [low_bytes map].
  rewrite (css_rewritten_nil (length value)) by lia. reflexivity.
Qed.

Lemma empty_prefix_css_url_witness :
  exists buffer',
    prefixCSSURLValues (vars_with [] (js "a:url( /x)")) (WriteBuffer_new 4096)
    = Returns buffer'
    /\ written buffer' = written (WriteBuffer_new 4096) ++ js "a:url( /x)".
Proof.
  apply empty_prefix_css_url.
  - apply buffer_ok_new. lia.
  - reflexivity.
  - reflexivity.
  - apply (bool_decide_unpack _). vm_compute. exact I.
Defined.

(** ** Values without quotes *)






(** ** A whole document *)





(** * Properties of the filesets *)

Section FilesetFacts.

Context {Globset Fingerprint : Type}.
Variable makeCompliment :
  list Filesets.JSValue -> list Filesets.JSValue -> Filesets.Result Globset.
Variable fingerprint :
  list Filesets.JSValue -> list Filesets.JSValue -> Filesets.JSValue ->
  Filesets.JSValue -> Filesets.JSValue -> Filesets.Result Fingerprint.

Import Filesets.

Lemma or_default_defined d v : is_undefined v = false -> or_default d v = v.
Proof. unfold or_default. intros ->. reflexivity. Qed.

Lemma or_default_undefined d v : v = JUndefined -> or_default d v = d.
Proof. intros ->. reflexivity. Qed.

(** What a constructor call that returns has checked and stored. *)
Lemma Fileset_new_Ok definition priority fs :
  Fileset.new makeCompliment fingerprint definition priority = Ok fs ->
  truthy definition = true
  /\ Fileset.category fs = get definition "category"
  /\ truthy (Fileset.category fs) = true
  /\ Fileset.restricted fs = or_default (JBool false) (get definition "restricted")
  /\ is_boolean (Fileset.restricted fs) = true
  /\ Fileset.searchable fs = or_default (JBool false) (get definition "searchable")
  /\ is_boolean (Fileset.searchable fs) = true
  /\ is_function (Fileset.acm fs) = true
  /\ Fileset._processor fs
     = or_default (Processor_new FilesetProcessor (get definition "category")
                     JUndefined)
         (get definition "processor")
  /\ is_processor (Fileset._processor fs) = true
  /\ Fileset.priority fs = or_default (JNumber 0) priority.
Proof.
  unfold Fileset.new. intros H.
  destruct (truthy definition) eqn:Hd; [|discriminate H]. cbn [negb] in H.
  destruct (truthy (get definition "category")) eqn:Hc; [|discriminate H].
  cbn [negb] in H.
  destruct (or_default (JArray []) (get definition "includes"));
    try discriminate H.
  destruct (or_default (JArray []) (get definition "excludes"));
    try discriminate H.
  destruct (is_boolean (or_default (JBool false) (get definition "restricted")))
    eqn:Hr; [|discriminate H].
  destruct (is_boolean (or_default (JBool false) (get definition "searchable")))
    eqn:Hs; [|discriminate H].
  destruct (is_function (or_default (JFunction "files => files")
                           (get definition "acm"))) eqn:Ha; [|discriminate H].
  destruct (is_processor
              (or_default (Processor_new FilesetProcessor
                             (get definition "category") JUndefined)
                 (get definition "processor"))) eqn:Hp; [|discriminate H].
  cbn [negb] in H. unfold mbind, Result_bind in H.
  destruct (makeCompliment _ _); try discriminate H.
  destruct (fingerprint _ _ _ _ _); try discriminate H.
  injection H as <-. cbn. repeat split; assumption.
Qed.

(** X18.  A fileset that the constructor returns has a truthy category,
    boolean [restricted] and [searchable] flags, a function as [acm], a
    FilesetProcessor instance as processor, and the priority it was given,
    0 when none was. *)
Theorem Fileset_new_validates definition priority fs :
  Fileset.new makeCompliment fingerprint definition priority = Ok fs ->
  truthy (Fileset.category fs) = true
  /\ is_boolean (Fileset.restricted fs) = true
  /\ is_boolean (Fileset.searchable fs) = true
  /\ is_function (Fileset.acm fs) = true
  /\ is_processor (Fileset._processor fs) = true
  /\ Fileset.priority fs = or_default (JNumber 0) priority.
Proof.
  intros H. apply Fileset_new_Ok in H. tauto.
Qed.

(** X19.  A fileset defined without a processor gets a default one that
    was handed the category in the place of the loader: every file record
    it makes has the category [undefined], not the category of the
    fileset. *)
Theorem default_processor_loses_category definition priority fs path active :
  Fileset.new makeCompliment fingerprint definition priority = Ok fs ->
  get definition "processor" = JUndefined ->
  Fileset.makeFileRecord fs path active
  = Ok (Made_record
          {| FileRecord.path := path;
             FileRecord.category := JUndefined;
             FileRecord.status :=
               (if truthy active then "published" else "deleted")%string |})
  /\ truthy (Fileset.category fs) = true.
Proof.
  intros H Hp. apply Fileset_new_Ok in H.
  destruct H as (_ & _ & Hc & _ & _ & _ & _ & _ & Hproc & _ & _).
  split; [|exact Hc].
  unfold Fileset.makeFileRecord. rewrite Hproc, Hp. reflexivity.
Qed.

(** X20.  A fileset whose processor is a JSONDataFSP never makes a record:
    for an inactive file the result is [false], and for an active one the
    call of [this.readFile], which no class on the chain declares, raises
    a TypeError before anything is read. *)
Theorem json_fileset_makes_no_record definition priority fs loader category
    path active :
  Fileset.new makeCompliment fingerprint definition priority = Ok fs ->
  get definition "processor" = JProcessor JSONDataFSP loader category ->
  Fileset.makeFileRecord fs path active
  = if truthy active then Raise (NotAFunction "readFile") else Ok Made_false.
Proof.
  intros H Hp. apply Fileset_new_Ok in H.
  destruct H as (_ & _ & _ & _ & _ & _ & _ & _ & Hproc & _ & _).
  unfold Fileset.makeFileRecord. rewrite Hproc, Hp.
  cbn [or_default is_undefined Processor_makeFileRecord].
  unfold JSONDataFSP_makeFileRecord, FilesetProcessor_makeFileRecord.
  cbn [FileRecord.status].
  destruct (truthy active); reflexivity.
Qed.

(** X21.  [init] hands the loader to the constructor in the place of the
    definition: unless the loader itself has a truthy [category] property
    the call raises, with the default loader as with any other. *)
Theorem init_raises loader :
  truthy (get (or_default FileLoader_new loader) "category") = false ->
  init makeCompliment fingerprint loader
  = Raise (if truthy (or_default FileLoader_new loader)
           then MustBeProvided "category" else DefinitionRequired).
Proof.
  intros Hc. unfold init, DefaultFilesets_definitions.
  cbn [map_throwing]. unfold Fileset.new.
  destruct (truthy (or_default FileLoader_new loader)); cbn [negb].
  - rewrite Hc. reflexivity.
  - reflexivity.
Qed.

End FilesetFacts.

Section FilesetWitnesses.

Import Filesets.

Lemma Fileset_new_validates_witness :
  match Fileset.new (fun includes excludes => Ok (includes, excludes))
          (fun _ _ _ _ _ => Ok tt)
          (JObject [("category", JStr "app"); ("include", JStr "sw.js")]%string)
          JUndefined with
  | Ok fs =>
    truthy (Fileset.category fs) = true
    /\ is_boolean (Fileset.restricted fs) = true
    /\ is_boolean (Fileset.searchable fs) = true
    /\ is_function (Fileset.acm fs) = true
    /\ is_processor (Fileset._processor fs) = true
    /\ Fileset.priority fs = or_default (JNumber 0) JUndefined
  | _ => False
  end.
Proof.
  destruct (Fileset.new (fun includes excludes => Ok (includes, excludes))
          (fun _ _ _ _ _ => Ok tt)
              (JObject [("category", JStr "app"); ("include", JStr "sw.js")]%string)
              JUndefined) as [fs| |] eqn:H.
  - exact (Fileset_new_validates (fun includes excludes => Ok (includes, excludes))
          (fun _ _ _ _ _ => Ok tt) _ _ fs H).
  - vm_compute in H. discriminate H.
  - vm_compute in H. discriminate H.
Defined.

Lemma default_processor_loses_category_witness :
  match Fileset.new (fun includes excludes => Ok (includes, excludes))
          (fun _ _ _ _ _ => Ok tt)
          (JObject [("category", JStr "app"); ("include", JStr "sw.js")]%string)
          (JNumber 0) with
  | Ok fs =>
    Fileset.makeFileRecord fs (JStr "sw.js") (JBool true)
    = Ok (Made_record
            {| FileRecord.path := JStr "sw.js";
               FileRecord.category := JUndefined;
               FileRecord.status :=
                 (if truthy (JBool true) then "published" else "deleted")%string |})
    /\ truthy (Fileset.category fs) = true
  | _ => False
  end.
Proof.
  destruct (Fileset.new (fun includes excludes => Ok (includes, excludes))
          (fun _ _ _ _ _ => Ok tt)
              (JObject [("category", JStr "app"); ("include", JStr "sw.js")]%string)
              (JNumber 0)) as [fs| |] eqn:H.
  - apply (default_processor_loses_category (fun includes excludes => Ok (includes, excludes))
          (fun _ _ _ _ _ => Ok tt) _ _ fs _ _ H).
    reflexivity.
  - vm_compute in H. discriminate H.
  - vm_compute in H. discriminate H.
Defined.

Lemma json_fileset_makes_no_record_witness :
  match Fileset.new (fun includes excludes => Ok (includes, excludes))
          (fun _ _ _ _ _ => Ok tt)
          (JObject [("category", JStr "json");
                    ("processor", Processor_new JSONDataFSP FileLoader_new (JStr "json"));
                    ("include", JStr "**/*.json")]%string)
          (JNumber 3) with
  | Ok fs =>
    Fileset.makeFileRecord fs (JStr "a.json") (JBool true)
    = if truthy (JBool true) then Raise (NotAFunction "readFile") else Ok Made_false
  | _ => False
  end.
Proof.
  destruct (Fileset.new (fun includes excludes => Ok (includes, excludes))
          (fun _ _ _ _ _ => Ok tt)
              (JObject [("category", JStr "json");
                        ("processor",
                         Processor_new JSONDataFSP FileLoader_new (JStr "json"));
                        ("include", JStr "**/*.json")]%string)
              (JNumber 3)) as [fs| |] eqn:H.
  - apply (json_fileset_makes_no_record (fun includes excludes => Ok (includes, excludes))
          (fun _ _ _ _ _ => Ok tt) _ _ fs
             FileLoader_new (JStr "json") _ _ H).
    reflexivity.
  - vm_compute in H. discriminate H.
  - vm_compute in H. discriminate H.
Defined.

Lemma init_raises_witness :
  init (fun includes excludes => Ok (includes, excludes))
          (fun _ _ _ _ _ => Ok tt) JUndefined
  = Raise (if truthy (or_default FileLoader_new JUndefined)
           then MustBeProvided "category" else DefinitionRequired).
Proof.
  apply (init_raises (fun includes excludes => Ok (includes, excludes))
          (fun _ _ _ _ _ => Ok tt) JUndefined). reflexivity.
Defined.

End FilesetWitnesses.
